(** * Citation-key normalisation of the Excel -> SQLite converter

    Shallow embedding of
    [engine/normative_db/convert_excel_to_sqlite_final_fixed (4).py]
    and the properties of its key-derivation functions:
    [limpiar_numero], [generar_clave], [normalizar_nombreparte],
    [extraer_numero_articulo], [separar_clave_y_articulo] and the
    derived-column part of [convertir_excel_a_sqlite].

    Text is a list of Unicode code points, as a Python [str] is.  The
    Python runtime pieces the script relies on ([str] methods, [int],
    [pd.isna], the [re] module) are modelled in the modules [Py] and [Re].
    The case and digit tables of the Unicode database are not part of the
    repository: [Py] gives them for Basic Latin and Latin-1 Supplement
    (U+0000..U+00FF), the range of the Spanish text the converter reads;
    code points above U+00FF are carried as caseless non-digits, so the
    statements below speak of Python on texts of that range.  The
    whitespace table is the full one of CPython. *)

From Stdlib Require Import ZArith NArith List Ascii String DecimalString Bool Lia.
From stdpp Require Import gmap strings list fin_maps.

Abbreviation char := N.
Abbreviation str := (list N).

(** Code points of an ASCII literal. *)
Fixpoint u (s : string) : str :=
  match s with
  | EmptyString => []
  | String a s' => N_of_ascii a :: u s'
  end.

(** The non-ASCII characters the script's patterns mention. *)
Definition i_acute : char := 237%N.   (* U+00ED, i with acute *)
Definition u_acute : char := 250%N.   (* U+00FA, u with acute *)
Definition degree : char := 176%N.    (* U+00B0, degree sign *)
Definition masc_ord : char := 186%N.  (* U+00BA, masculine ordinal *)

(** ** Python runtime *)
Module Py.
Local Open Scope N_scope.

Definition between (lo hi c : char) : bool := (lo <=? c) && (c <=? hi).

(** [str.isspace] on one code point; also [\s] of [re] on [str] patterns. *)
Definition isspace (c : char) : bool :=
  between 9 13 c || between 28 32 c || (c =? 133) || (c =? 160)
  || (c =? 5760) || between 8192 8202 c || (c =? 8232) || (c =? 8233)
  || (c =? 8239) || (c =? 8287) || (c =? 12288).

(** Decimal digits, [\d] of [re]. *)
Definition isdecimal (c : char) : bool := between 48 57 c.

(** Simple lower-case mapping of a code point. *)
Definition lower_char (c : char) : char :=
  if between 65 90 c then c + 32
  else if between 192 222 c && negb (c =? 215) then c + 32
  else c.

(** Full upper-case mapping of a code point: sharp s becomes "SS",
    y with diaeresis and the micro sign leave Latin-1. *)
Definition upper_chars (c : char) : str :=
  if between 97 122 c then [c - 32]
  else if between 224 254 c && negb (c =? 247) then [c - 32]
  else if c =? 223 then [83; 83]
  else if c =? 255 then [376]
  else if c =? 181 then [924]
  else [c].

(** [s.lower()], [s.upper()] *)
Definition lower (s : str) : str := lower_char <$> s.
Definition upper (s : str) : str := s ≫= upper_chars.

(** Dropping the characters of a class at both ends. *)
Fixpoint ldrop (p : char → bool) (s : str) : str :=
  match s with
  | c :: s' => if p c then ldrop p s' else s
  | [] => []
  end.
Definition strip_by (p : char → bool) (s : str) : str :=
  rev (ldrop p (rev (ldrop p s))).

(** [s.strip()] *)
Definition strip (s : str) : str := strip_by isspace s.

(** [p in s] on strings: [p] occurs as a substring of [s]. *)
Fixpoint startswith (p s : str) : bool :=
  match p, s with
  | [], _ => true
  | a :: p', b :: s' => (a =? b) && startswith p' s'
  | _ :: _, [] => false
  end.
Fixpoint contains (p s : str) : bool :=
  startswith p s || match s with [] => false | _ :: s' => contains p s' end.

(** A float other than NaN, by what the script can observe of it: the
    text [str] gives it ("3500.0", "1e+16", "inf"), whether it equals
    zero, and its truncation to an integer, [None] for an infinity. *)
Record flotante := { f_texto : str; f_cero : bool; f_entero : option Z }.

(** Cell values of a pandas row, as [pd.read_excel] yields them and
    [df.apply(..., axis=1)] hands them over: [None], the float NaN of a
    missing cell, strings, integers, booleans, the other floats, and date
    and time cells (a [Timestamp], [datetime] or [time], given by the
    text [str] gives it).  Integers are unbounded (a sheet's are 64-bit),
    and a text of digits is taken to be shorter than the length at which
    CPython refuses to convert between [int] and [str]. *)
Inductive value :=
| VNone
| VNaN
| VStr (s : str)
| VInt (z : Z)
| VBool (b : bool)
| VFloat (f : flotante)
| VFecha (s : str).

(** [pd.isna(x)] on a scalar *)
Definition isna (v : value) : bool :=
  match v with VNone | VNaN => true | _ => false end.

(** Truth value of [x] in [if x] *)
Definition truthy (v : value) : bool :=
  match v with
  | VNone => false
  | VNaN => true
  | VStr s => negb (bool_decide (s = []))
  | VInt z => negb (z =? 0)%Z
  | VBool b => b
  | VFloat f => negb (f_cero f)
  | VFecha _ => true
  end.

(** [str(z)] for an integer *)
Definition str_of_Z (z : Z) : str := u (NilZero.string_of_int (Z.to_int z)).

(** [str(x)] *)
Definition str_of (v : value) : str :=
  match v with
  | VNone => u "None"
  | VNaN => u "nan"
  | VStr s => s
  | VInt z => str_of_Z z
  | VBool true => u "True"
  | VBool false => u "False"
  | VFloat f => f_texto f
  | VFecha s => s
  end.

(** Exceptions the script can meet. *)
Inductive exn := ValueError | TypeError | OverflowError.

Inductive result (A : Type) :=
| Ok (a : A)
| Raise (e : exn).
Arguments Ok {A} a.
Arguments Raise {A} e.

(** Digits of an integer literal: single underscores between digits only. *)
Fixpoint int_digits (s : str) (acc : N) (after_digit : bool) : option N :=
  match s with
  | [] => if after_digit then Some acc else None
  | c :: s' =>
      if isdecimal c then int_digits s' (10 * acc + (c - 48)) true
      else if (c =? 95) && after_digit then int_digits s' acc false
      else None
  end.

(** The whitespace [int] skips: the separators U+001C..U+001F are not in it. *)
Definition int_space (c : char) : bool := isspace c && negb (between 28 31 c).

(** [int(s)] for a string, base 10: surrounding whitespace, one optional
    sign, digits. *)
Definition int_of_str (s : str) : option Z :=
  match strip_by int_space s with
  | 45 :: d => (λ n, (- Z.of_N n)%Z) <$> int_digits d 0 false
  | 43 :: d => Z.of_N <$> int_digits d 0 false
  | d => Z.of_N <$> int_digits d 0 false
  end.

(** [int(x)] *)
Definition int_of (v : value) : result Z :=
  match v with
  | VNone => Raise TypeError
  | VNaN => Raise ValueError
  | VStr s => match int_of_str s with Some z => Ok z | None => Raise ValueError end
  | VInt z => Ok z
  | VBool b => Ok (if b then 1 else 0)%Z
  | VFloat f => match f_entero f with Some z => Ok z | None => Raise OverflowError end
  | VFecha _ => Raise TypeError
  end.

End Py.
Export Py.

(** ** The [re] module

    Patterns are kept as syntax, one constructor per construct the
    script's patterns use.  Repetition is over single-character atoms, the
    only repetition in those patterns.  [run] lists the ways a pattern
    matches at the head of a text in the order a backtracking matcher
    tries them (greedy repetition and option first, alternatives left to
    right), so the first entry is the match Python reports. *)
Module Re.

Inductive item :=
| ILit (c : char)            (* a character inside [...] *)
| IRange (lo hi : char)      (* lo-hi *)
| IDigit                     (* \d *)
| ISpace.                    (* \s *)

Inductive atom :=
| ALit (c : char)                          (* a literal character *)
| ASet (negate : bool) (items : list item). (* [...], [^...], \d, \s *)

Inductive regex :=
| Empty
| Atom (a : atom)
| Star (a : atom)            (* a* *)
| Plus (a : atom)            (* a+ *)
| Seq (r1 r2 : regex)
| Alt (r1 r2 : regex)        (* r1|r2 *)
| Opt (r : regex)            (* r? *)
| Group (i : nat) (r : regex) (* i-th capturing group *)
| Bol                        (* ^ *)
| Eol.                       (* $ *)

(** The code points lo..hi. *)
Definition char_range (lo hi : char) : list char :=
  (λ k, (lo + N.of_nat k)%N) <$> seq 0 (N.to_nat (hi + 1 - lo)).

(** With IGNORECASE a literal or range stands for the lower-cased
    characters it names and is compared with the lower-cased input.  (The
    few extra equivalences of [re] lie above U+00FF, as the long s.) *)
Definition item_match (icase : bool) (it : item) (c : char) : bool :=
  match it with
  | ILit p => if icase then (lower_char c =? lower_char p)%N else (c =? p)%N
  | IRange lo hi =>
      if icase then existsb (λ x, (lower_char x =? lower_char c)%N) (char_range lo hi)
      else between lo hi c
  | IDigit => isdecimal c
  | ISpace => isspace c
  end.

Definition atom_match (icase : bool) (a : atom) (c : char) : bool :=
  match a with
  | ALit p => item_match icase (ILit p) c
  | ASet negate items => xorb negate (existsb (λ it, item_match icase it c) items)
  end.

Abbreviation groups := (gmap nat (list N)).

(** Greedy repetition of a character test: longest run first. *)
Fixpoint star (p : char → bool) (s : str) : list (str * str) :=
  match s with
  | c :: s' =>
      if p c then (prod_map (cons c) id <$> star p s') ++ [([], s)]
      else [([], s)]
  | [] => [([], [])]
  end.

(** [run icase r bol s g]: the matches of [r] at the head of [s], each as
    (matched text, remaining text, groups); [bol] tells whether the head
    of [s] is the start of the subject. *)
Fixpoint run (icase : bool) (r : regex) (bol : bool) (s : str) (g : groups)
  : list (str * str * groups) :=
  match r with
  | Empty => [([], s, g)]
  | Atom a =>
      match s with
      | c :: s' => if atom_match icase a c then [([c], s', g)] else []
      | [] => []
      end
  | Star a => (λ mt, (mt.1, mt.2, g)) <$> star (atom_match icase a) s
  | Plus a =>
      match s with
      | c :: s' =>
          if atom_match icase a c
          then (λ mt, (c :: mt.1, mt.2, g)) <$> star (atom_match icase a) s'
          else []
      | [] => []
      end
  | Seq r1 r2 =>
      x ← run icase r1 bol s g;
      y ← run icase r2 (bol && bool_decide (x.1.1 = [])) x.1.2 x.2;
      [(x.1.1 ++ y.1.1, y.1.2, y.2)]
  | Alt r1 r2 => run icase r1 bol s g ++ run icase r2 bol s g
  | Opt r' => run icase r' bol s g ++ [([], s, g)]
  | Group i r' => (λ x, (x.1.1, x.1.2, <[i := x.1.1]> x.2)) <$> run icase r' bol s g
  | Bol => if bol then [([], s, g)] else []
  | Eol =>
      match s with
      | [] => [([], s, g)]
      | [10%N] => [([], s, g)]
      | _ => []
      end
  end.

(** What [run] lists, as a relation:
    [Matches icase r bol s g m t g'] when [r] matches the text [m] at the
    head of [s], leaving [t], and takes the groups from [g] to [g']. *)
Inductive Matches (icase : bool) : regex → bool → str → groups → str → str → groups → Prop :=
| M_Empty bol s g :
    Matches icase Empty bol s g [] s g
| M_Atom a bol c s g :
    atom_match icase a c = true →
    Matches icase (Atom a) bol (c :: s) g [c] s g
| M_Star a bol m t g :
    Forall (λ c, atom_match icase a c = true) m →
    Matches icase (Star a) bol (m ++ t) g m t g
| M_Plus a bol c m t g :
    atom_match icase a c = true →
    Forall (λ c, atom_match icase a c = true) m →
    Matches icase (Plus a) bol (c :: m ++ t) g (c :: m) t g
| M_Seq r1 r2 bol s g m1 s1 g1 m2 s2 g2 :
    Matches icase r1 bol s g m1 s1 g1 →
    Matches icase r2 (bol && bool_decide (m1 = [])) s1 g1 m2 s2 g2 →
    Matches icase (Seq r1 r2) bol s g (m1 ++ m2) s2 g2
| M_Alt_l r1 r2 bol s g m t g' :
    Matches icase r1 bol s g m t g' →
    Matches icase (Alt r1 r2) bol s g m t g'
| M_Alt_r r1 r2 bol s g m t g' :
    Matches icase r2 bol s g m t g' →
    Matches icase (Alt r1 r2) bol s g m t g'
| M_Opt_some r bol s g m t g' :
    Matches icase r bol s g m t g' →
    Matches icase (Opt r) bol s g m t g'
| M_Opt_none r bol s g :
    Matches icase (Opt r) bol s g [] s g
| M_Group i r bol s g m t g' :
    Matches icase r bol s g m t g' →
    Matches icase (Group i r) bol s g m t (<[i := m]> g')
| M_Bol s g :
    Matches icase Bol true s g [] s g
| M_Eol_end bol g :
    Matches icase Eol bol [] g [] [] g
| M_Eol_newline bol g :
    Matches icase Eol bol [10%N] g [] [10%N] g.

(** A match object: the whole match and the groups that took part. *)
Record match_obj := { whole : str; caps : groups }.

(** [m.group(i)]: the text of group [i], [None] when it did not take part. *)
Definition group (m : match_obj) (i : nat) : value :=
  match caps m !! i with
  | Some t => VStr t
  | None => VNone
  end.

Definition first_match (icase : bool) (r : regex) (bol : bool) (s : str)
  : option (str * str * groups) :=
  head (run icase r bol s ∅).

(** [re.match(r, s, flags)] *)
Definition re_match (icase : bool) (r : regex) (s : str) : option match_obj :=
  (λ x, {| whole := x.1.1; caps := x.2 |}) <$> first_match icase r true s.

(** [re.search(r, s, flags)]: the first start position with a match. *)
Fixpoint search_from (icase : bool) (r : regex) (bol : bool) (s : str) : option match_obj :=
  match first_match icase r bol s with
  | Some x => Some {| whole := x.1.1; caps := x.2 |}
  | None =>
      match s with
      | [] => None
      | _ :: s' => search_from icase r false s'
      end
  end.
Definition re_search (icase : bool) (r : regex) (s : str) : option match_obj :=
  search_from icase r true s.

(** [re.sub(r, repl, s)] for a replacement without group references:
    leftmost matches, not overlapping; [skip] counts the characters of the
    current match still to be dropped.  An empty match puts [repl] in
    front of the next character. *)
Fixpoint sub_from (icase : bool) (r : regex) (repl : str) (bol : bool) (skip : nat) (s : str) : str :=
  match skip with
  | S k =>
      match s with
      | [] => []
      | _ :: s' => sub_from icase r repl false k s'
      end
  | O =>
      match first_match icase r bol s with
      | Some x =>
          match s with
          | [] => repl
          | c :: s' =>
              match length x.1.1 with
              | O => repl ++ c :: sub_from icase r repl false 0 s'
              | S k => repl ++ sub_from icase r repl false k s'
              end
          end
      | None =>
          match s with
          | [] => []
          | c :: s' => c :: sub_from icase r repl false 0 s'
          end
      end
  end.
Definition re_sub (icase : bool) (r : regex) (repl : str) (s : str) : str :=
  sub_from icase r repl true 0 s.

(** Pattern builders. *)
Definition ch (a : ascii) : char := N_of_ascii a.
Definition lit (c : ascii) : regex := Atom (ALit (ch c)).
Fixpoint lits (s : string) : regex :=
  match s with
  | EmptyString => Empty
  | String a EmptyString => lit a
  | String a s' => Seq (lit a) (lits s')
  end.
Fixpoint seqs (rs : list regex) : regex :=
  match rs with
  | [] => Empty
  | [r] => r
  | r :: rs' => Seq r (seqs rs')
  end.
Fixpoint alts (rs : list regex) : regex :=
  match rs with
  | [] => Empty
  | [r] => r
  | r :: rs' => Alt r (alts rs')
  end.
Definition digit : atom := ASet false [IDigit].   (* \d *)
Definition space : atom := ASet false [ISpace].   (* \s *)

Arguments ch a%_char.
Arguments lit c%_char.

End Re.
Export Re.

(** ** The script *)

(** A row of the sheet as [df.apply(..., axis=1)] hands it over: a pandas
    Series from column name to cell. *)
Abbreviation row := (gmap string value).

(** [row.get(k, default)] *)
Definition row_get (r : row) (k : string) (dflt : value) : value :=
  default dflt (r !! k).

(** [x or ''] *)
Definition or_empty (v : value) : value := if truthy v then v else VStr [].

Definition nonempty (s : str) : bool := negb (bool_decide (s = [])).

(** Lines 20-37, in declaration order. *)
Definition CODIGOS_ESPECIALES : list (str * str) :=
  [ (u "codigo civil dfl 1 2000 articulo 2 con doble articulado", u "CCCH");
    (u "codigo penal", u "CPCH");
    (u "codigo de comercio", u "CCOM");
    (u "codigo del trabajo", u "CTCH");
    (u "codigo tributario", u "CTRIB");
    (u "codigo sanitario", u "CSAN");
    (u "codigo organico de tribunales", u "COT");
    (u "codigo procesal penal", u "CPP");
    (u "codigo de procedimiento civil", u "CPC");
    (u "constitucion politica", u "CRCH");
    (u "constitucion", u "CRCH");
    (u "ley de abandono de familia y pensiones dfl 1 2000 articulo 7 con doble articulado", u "LAFP");
    (u "ley de cambio de nombres dfl 1 2000 articulo 4 con doble articulado", u "LCN");
    (u "ley de impuesto a la herencia y donaciones dfl 1 2000 articulo 8 con doble articulado", u "LIHD");
    (u "ley de menores dfl 1 2000 articulo 6 con doble articulado", u "LM");
    (u "ley del registro civil dfl 1 2000 articulo 3 con doble articulado", u "LRC") ].

(** Pattern [[^\d]] *)
Definition re_no_digito : regex := Atom (ASet true [IDigit]).

(** Lines 39-42. *)
Definition limpiar_numero (texto : value) : str :=
  if isna texto then []
  else re_sub false re_no_digito [] (str_of texto).

(** Pattern [\d{4}] *)
Definition d4 : regex := seqs [Atom digit; Atom digit; Atom digit; Atom digit].

(** Pattern [dfl \s* (\d+) \s* (\d{4})?] with IGNORECASE (patterns are
    written spaced out, as under re.VERBOSE) *)
Definition re_dfl : regex :=
  seqs [lits "dfl"; Star space; Group 1 (Plus digit); Star space; Opt (Group 2 d4)].

(** Pattern [(?: decreto \s* ley | dl ) \s* (\d+) \s* (\d{4})?] with
    IGNORECASE *)
Definition re_dl : regex :=
  seqs [Alt (seqs [lits "decreto"; Star space; lits "ley"]) (lits "dl");
        Star space; Group 1 (Plus digit); Star space; Opt (Group 2 d4)].

(** Pattern [ley \s* (?: n [uU] m \.? \s* )? ( \d+ [\.\d]* )] with
    IGNORECASE, where U stands for the accented u of the source *)
Definition re_ley : regex :=
  seqs [lits "ley"; Star space;
        Opt (seqs [lit "n"; Atom (ASet false [ILit (ch "u"); ILit u_acute]); lit "m";
                   Opt (lit "."); Star space]);
        Group 1 (Seq (Plus digit) (Star (ASet false [ILit (ch "."); IDigit])))].

(** Pattern [decreto \s* supremo \s* (?: n [DO]? \s* )? (\d+)] with
    IGNORECASE, where D and O stand for the degree sign and the masculine
    ordinal *)
Definition re_ds : regex :=
  seqs [lits "decreto"; Star space; lits "supremo"; Star space;
        Opt (seqs [lit "n"; Opt (Atom (ASet false [ILit degree; ILit masc_ord])); Star space]);
        Group 1 (Plus digit)].

(** Lines 45-48: the manual key, when the column is there, the cell is
    not missing and its text is not blank. *)
Definition paso_clave_manual (r : row) : option str :=
  match r !! "clave_manual" with
  | Some v =>
      if negb (isna v) then
        let clave_manual := strip (str_of v) in
        if nonempty clave_manual then Some (upper clave_manual) else None
      else None
  | None => None
  end.

(** Lines 54-56: the first table entry whose phrase occurs in either field. *)
Definition paso_codigos (norma norma_tipo : str) : option str :=
  snd <$> find (λ pc, contains pc.1 norma || contains pc.1 norma_tipo) CODIGOS_ESPECIALES.

(** Lines 58-62. *)
Definition paso_dfl (norma norma_tipo : str) : option str :=
  if contains (u "decreto con fuerza de ley") norma_tipo || contains (u "dfl") norma then
    match re_search true re_dfl norma with
    | Some m =>
        let num := group m 1 in
        let year := or_empty (group m 2) in
        Some (if truthy year then u "DFL" ++ str_of num ++ str_of year
              else u "DFL" ++ str_of num)
    | None => None
    end
  else None.

(** Lines 64-68. *)
Definition paso_dl (norma norma_tipo : str) : option str :=
  if contains (u "decreto ley") norma_tipo || contains (u "decreto ley") norma then
    match re_search true re_dl norma with
    | Some m =>
        let num := group m 1 in
        let year := or_empty (group m 2) in
        Some (if truthy year then u "DL" ++ str_of num ++ str_of year
              else u "DL" ++ str_of num)
    | None => None
    end
  else None.

(** Lines 70-78. *)
Definition paso_ley (norma norma_tipo : str) (norma_numero : value) : option str :=
  if contains (u "ley") norma_tipo || contains (u "ley") norma then
    match re_search true re_ley norma with
    | Some m => Some (u "L" ++ limpiar_numero (group m 1))
    | None =>
        if truthy norma_numero && negb (isna norma_numero) then
          let num := limpiar_numero norma_numero in
          if nonempty num then Some (u "L" ++ num) else None
        else None
    end
  else None.

(** Lines 80-83. *)
Definition paso_ds (norma norma_tipo : str) : option str :=
  if contains (u "decreto supremo") norma_tipo || contains (u "decreto supremo") norma then
    match re_search true re_ds norma with
    | Some m => Some (u "DS" ++ str_of (group m 1))
    | None => None
    end
  else None.

(** Lines 85-89. *)
Definition paso_idnorma (r : row) : result str :=
  let idnorma := row_get r "norma_idnorma" (VStr []) in
  if truthy idnorma && negb (isna idnorma) then
    match int_of idnorma with
    | Ok z => Ok (u "N" ++ str_of_Z z)
    | Raise e => Raise e
    end
  else Ok (u "UNKNOWN").

(** Lines 44-89.  A step that yields a key returns it at once; the
    [desde_] functions are the rest of the body from a step on. *)
Definition desde_ds (r : row) (norma norma_tipo : str) : result str :=
  match paso_ds norma norma_tipo with
  | Some clave => Ok clave
  | None => paso_idnorma r
  end.

Definition desde_ley (r : row) (norma norma_tipo : str) (norma_numero : value) : result str :=
  match paso_ley norma norma_tipo norma_numero with
  | Some clave => Ok clave
  | None => desde_ds r norma norma_tipo
  end.

Definition desde_dl (r : row) (norma norma_tipo : str) (norma_numero : value) : result str :=
  match paso_dl norma norma_tipo with
  | Some clave => Ok clave
  | None => desde_ley r norma norma_tipo norma_numero
  end.

Definition desde_dfl (r : row) (norma norma_tipo : str) (norma_numero : value) : result str :=
  match paso_dfl norma norma_tipo with
  | Some clave => Ok clave
  | None => desde_dl r norma norma_tipo norma_numero
  end.

Definition generar_clave (r : row) : result str :=
  match paso_clave_manual r with
  | Some clave => Ok clave
  | None =>
      let norma := strip (lower (str_of (row_get r "norma" (VStr [])))) in
      let norma_tipo := strip (lower (str_of (row_get r "norma_tipo" (VStr [])))) in
      let norma_numero := row_get r "norma_numero" (VStr []) in
      match paso_codigos norma norma_tipo with
      | Some clave => Ok clave
      | None => desde_dfl r norma norma_tipo norma_numero
      end
  end.

(** Pattern [art [Ii] culo], where I stands for the accented i *)
Definition re_articulo : regex :=
  seqs [lits "art"; Atom (ASet false [ILit i_acute; ILit (ch "i")]); lits "culo"].

(** Pattern [^ art \.? \s*] *)
Definition re_art_inicial : regex :=
  seqs [Bol; lits "art"; Opt (lit "."); Star space].

(** Pattern [\s+] *)
Definition re_espacios : regex := Plus space.

(** Lines 91-98. *)
Definition normalizar_nombreparte (texto : value) : str :=
  if isna texto then []
  else
    let texto := strip (lower (str_of texto)) in
    let texto := re_sub false re_articulo (u "articulo") texto in
    let texto := re_sub false re_art_inicial (u "articulo ") texto in
    let texto := re_sub false re_espacios (u " ") texto in
    strip texto.

(** Pattern [(?: art [Ii] culo | art \.? ) \s*
    ( \d+ (?: \s* (?: bis | ter | quater | quinquies | sexies ) )? )] *)
Definition re_num_articulo : regex :=
  seqs [Alt re_articulo (Seq (lits "art") (Opt (lit ".")));
        Star space;
        Group 1 (Seq (Plus digit)
                     (Opt (Seq (Star space)
                               (alts [lits "bis"; lits "ter"; lits "quater";
                                      lits "quinquies"; lits "sexies"]))))].

(** Pattern [^ (\d+) $] *)
Definition re_solo_numero : regex := seqs [Bol; Group 1 (Plus digit); Eol].

(** Lines 100-110. *)
Definition extraer_numero_articulo (texto : value) : str :=
  if isna texto then []
  else
    let texto := strip (lower (str_of texto)) in
    match re_search false re_num_articulo texto with
    | Some m => strip (str_of (group m 1))
    | None =>
        match re_search false re_solo_numero (strip texto) with
        | Some m => str_of (group m 1)
        | None => []
        end
    end.

(** Pattern [^ ( [A-Z0-9\.]+ ) \.ART ( \d+ [A-Z]* ) $] with IGNORECASE *)
Definition clase_base : atom :=
  ASet false [IRange (ch "A") (ch "Z"); IRange (ch "0") (ch "9"); ILit (ch ".")].
Definition clase_letra : atom := ASet false [IRange (ch "A") (ch "Z")].
Definition re_clave_articulo : regex :=
  seqs [Bol; Group 1 (Plus clase_base); lits ".ART";
        Group 2 (Seq (Plus digit) (Star clase_letra)); Eol].

(** Lines 112-124; the pair is (base, article), [VNone] for Python's
    [None].  Group 1 always takes part in a match of the pattern. *)
Definition separar_clave_y_articulo (clave_str : value) : value * value :=
  if isna clave_str then (VNone, VNone)
  else
    let clave_str := upper (strip (str_of clave_str)) in
    match re_match true re_clave_articulo clave_str with
    | Some m =>
        let base := upper (str_of (group m 1)) in
        let articulo := group m 2 in
        (VStr base, articulo)
    | None => (VStr clave_str, VNone)
    end.

(** *** The derived columns (lines 145-159)

    The frame after [pd.read_excel] and the renaming of columns: the
    column labels and the rows, every row carrying a cell for every
    column, under the default index 0, 1, ... *)
Record DataFrame := { columns : list string; rows : list row }.

(** [df[c]] *)
Definition column (c : string) (df : DataFrame) : list value :=
  (λ r, row_get r c VNaN) <$> rows df.

(** [df[c] = vals] *)
Definition set_column (c : string) (vals : list value) (df : DataFrame) : DataFrame :=
  {| columns := if bool_decide (c ∈ columns df) then columns df else columns df ++ [c];
     rows := zip_with (λ r v, <[c := v]> r) (rows df) vals |}.

(** [s.fillna(other)], both under the default index: a missing cell takes
    the entry of [other] at its position (itself missing when [other] has
    [None] there). *)
Definition fillna (s other : list value) : list value :=
  zip_with (λ x y, if isna x then y else x) s other.

(** Applying a function that can raise to every row, first to last. *)
Fixpoint apply_rows {A B : Type} (f : A → result B) (l : list A) : result (list B) :=
  match l with
  | [] => Ok []
  | x :: l' =>
      match f x with
      | Raise e => Raise e
      | Ok y =>
          match apply_rows f l' with
          | Raise e => Raise e
          | Ok ys => Ok (y :: ys)
          end
      end
  end.

(** Lines 150-153: the articles split off the keys fill the column when
    it is new, and only its missing cells when the sheet has it. *)
Definition columna_numero_articulo (articulos_extraidos : list value) (df : DataFrame) : DataFrame :=
  if negb (bool_decide ("numero_articulo" ∈ columns df))
  then set_column "numero_articulo" articulos_extraidos df
  else set_column "numero_articulo"
         (fillna (column "numero_articulo" df) articulos_extraidos) df.

(** Lines 155-156. *)
Definition columna_nombreparte_normalizado (df : DataFrame) : DataFrame :=
  if bool_decide ("nombreparte" ∈ columns df)
  then set_column "nombreparte_normalizado"
         ((λ v, VStr (normalizar_nombreparte v)) <$> column "nombreparte" df) df
  else df.

(** Lines 158-159. *)
Definition columna_url_norma_pdf (df : DataFrame) : DataFrame :=
  if negb (bool_decide ("url_norma_pdf" ∈ columns df))
  then set_column "url_norma_pdf" ((λ _, VNone) <$> rows df) df
  else df.

(** Lines 145-159.  [extraer_numero_articulo] is defined by the script
    and called nowhere in it. *)
Definition derivar_columnas (df : DataFrame) : result DataFrame :=
  (* line 145 *)
  match apply_rows generar_clave (rows df) with
  | Raise e => Raise e
  | Ok claves =>
      let df := set_column "clave" (VStr <$> claves) df in
      (* line 147: on a sheet without rows, unpacking the zip of no pairs
         into two names raises *)
      match separar_clave_y_articulo <$> column "clave" df with
      | [] => Raise ValueError
      | pares =>
          let base_claves := fst <$> pares in
          let articulos_extraidos := snd <$> pares in
          let df := set_column "clave" base_claves df in
          Ok (columna_url_norma_pdf
                (columna_nombreparte_normalizado
                   (columna_numero_articulo articulos_extraidos df)))
      end
  end.

(** ** Notions used in the statements *)

(** The characters outside a class. *)
Abbreviation no_es p := (λ c : char, p c = false).

(** A text left unchanged by [upper], character by character. *)
Definition mayuscula (s : str) : Prop := Forall (λ c, upper_chars c = [c]) s.

(** The classes of the composite-key pattern under IGNORECASE. *)
Definition es_base (c : char) : bool := atom_match true clase_base c.
Definition es_letra (c : char) : bool := atom_match true clase_letra c.

(** An article suffix: one digit or more, then letters. *)
Definition forma_articulo (art : str) : bool :=
  match art with
  | c :: t => isdecimal c && forallb es_letra (ldrop isdecimal t)
  | [] => false
  end.

(** A base and an article that the composite-key pattern can split. *)
Definition forma_compuesta (base art : str) : bool :=
  nonempty base && forallb es_base base && forma_articulo art.

(** The shape of [re_clave_articulo], over its atoms. *)
Definition patron_compuesto (A D L l1 l2 l3 l4 : atom) : regex :=
  Seq Bol (Seq (Group 1 (Plus A))
    (Seq (Seq (Atom l1) (Seq (Atom l2) (Seq (Atom l3) (Atom l4))))
      (Seq (Group 2 (Seq (Plus D) (Star L))) Eol))).

(** Steps 1 to 6 of the resolver (manual key, special codes, DFL, DL,
    ley, decreto supremo) yield no key for the row. *)
Definition sin_clave_hasta_ds (r : row) : Prop :=
  let norma := strip (lower (str_of (row_get r "norma" (VStr [])))) in
  let norma_tipo := strip (lower (str_of (row_get r "norma_tipo" (VStr [])))) in
  let norma_numero := row_get r "norma_numero" (VStr []) in
  paso_clave_manual r = None
  ∧ paso_codigos norma norma_tipo = None
  ∧ paso_dfl norma norma_tipo = None
  ∧ paso_dl norma norma_tipo = None
  ∧ paso_ley norma norma_tipo norma_numero = None
  ∧ paso_ds norma norma_tipo = None.

(** No step of the resolver applies to the row: the first six yield no
    key and norma_idnorma is absent, falsy or missing. *)
Definition ningun_paso (r : row) : Prop :=
  let idnorma := row_get r "norma_idnorma" (VStr []) in
  sin_clave_hasta_ds r ∧ truthy idnorma && negb (isna idnorma) = false.

(** The norma_idnorma cell is a non-empty text that [int] rejects. *)
Definition id_no_entero (r : row) : Prop :=
  ∃ s, r !! "norma_idnorma" = Some (VStr s) ∧ s ≠ [] ∧ int_of_str s = None.

(** The norma_idnorma cell is a date or time. *)
Definition id_fecha (r : row) : Prop :=
  ∃ s, r !! "norma_idnorma" = Some (VFecha s).

(** The norma_idnorma cell is an infinite float. *)
Definition id_infinito (r : row) : Prop :=
  ∃ f, r !! "norma_idnorma" = Some (VFloat f) ∧ f_cero f = false ∧ f_entero f = None.

(** The norma_idnorma cell passes the test of line 86 (truthy, not
    missing) and [int] raises [e] on it. *)
Definition id_rechazado (r : row) (e : exn) : Prop :=
  let idnorma := row_get r "norma_idnorma" (VStr []) in
  truthy idnorma && negb (isna idnorma) = true ∧ int_of idnorma = Raise e.

(** A run of decimal digits, one at least. *)
Definition digitos (s : str) : Prop := s ≠ [] ∧ Forall (λ c, isdecimal c = true) s.

(** Characters a key derived without a manual key is made of. *)
Definition car_clave (c : char) : bool :=
  between 65 90 c || isdecimal c || (c =? 45)%N.

(** The forms of a key derived without a manual key. *)
Definition forma_clave_derivada (k : str) : Prop :=
  k ∈ CODIGOS_ESPECIALES.*2
  ∨ (∃ p ds, p ∈ [u "DFL"; u "DL"; u "L"; u "DS"] ∧ digitos ds ∧ k = p ++ ds)
  ∨ (∃ z, k = u "N" ++ str_of_Z z)
  ∨ k = u "UNKNOWN".

(** Every whitespace character is a plain space that no whitespace follows. *)
Fixpoint espacios_simples (s : str) : bool :=
  match s with
  | c :: s' =>
      (negb (isspace c)
       || ((c =? 32)%N && match s' with c' :: _ => negb (isspace c') | [] => true end))
      && espacios_simples s'
  | [] => true
  end.

(** The columns the script derives. *)
Definition columnas_derivadas : list string :=
  ["clave"; "numero_articulo"; "nombreparte_normalizado"; "url_norma_pdf"].

(** The first key that a list of steps yields, in order, and [fin] when
    none yields one. *)
Fixpoint primera_clave (pasos : list (option str)) (fin : result str) : result str :=
  match pasos with
  | Some clave :: _ => Ok clave
  | None :: pasos' => primera_clave pasos' fin
  | [] => fin
  end.

(** ** Rows and texts used in the statements *)

Definition fila (celdas : list (string * value)) : row := list_to_map celdas.

(** "articulo" with its accent, as typed in the sheet. *)
Definition articulo_acentuado : str := u "art" ++ [i_acute] ++ u "culo".

(** "Ley N<degree> 19.496" *)
Definition ley_n_19496 : str := u "Ley N" ++ [degree] ++ u " 19.496".

(** "Ley N<degree> 19.496" after [lower] and [strip]. *)
Definition ley_n_19496_norma : str := u "ley n" ++ [degree] ++ u " 19.496".

(** "decreto supremo n<degree> 5" *)
Definition decreto_supremo_n_5 : str := u "decreto supremo n" ++ [degree] ++ u " 5".

Definition fila_manual : row :=
  fila [("clave_manual", VStr (u " ctrib.Art31e "));
        ("norma", VStr (u "Codigo Penal"));
        ("norma_idnorma", VStr (u "abc"))].

Definition fila_id_texto : row :=
  fila [("norma", VStr (u "Reglamento interno")); ("norma_idnorma", VStr (u "abc"))].

Definition fila_id_entero : row :=
  fila [("norma", VStr (u "Reglamento interno")); ("norma_idnorma", VInt 29636)].

Definition fila_ley_n : row :=
  fila [("norma_tipo", VStr (u "Ley")); ("norma", VStr ley_n_19496)].

Definition fila_ley_n_numero : row :=
  fila [("norma_tipo", VStr (u "Ley")); ("norma", VStr ley_n_19496);
        ("norma_numero", VStr (u "19.496"))].

Definition fila_ley_19496 : row :=
  fila [("norma_tipo", VStr (u "Ley")); ("norma", VStr (u "Ley 19.496"))].

Definition fila_dfl_ds : row :=
  fila [("norma_tipo", VStr (u "decreto con fuerza de ley"));
        ("norma", VStr decreto_supremo_n_5)].

(** A date in norma_idnorma. *)
Definition fila_id_fecha : row :=
  fila [("norma", VStr (u "Reglamento interno"));
        ("norma_idnorma", VFecha (u "2020-01-01 00:00:00"))].

(** Type "Ley", a decreto supremo in the description, a number. *)
Definition fila_ley_ds_77 : row :=
  fila [("norma_tipo", VStr (u "Ley"));
        ("norma", VStr (u "Decreto Supremo 5"));
        ("norma_numero", VStr (u "77"))].

(** The same with a norma_numero that holds no digit. *)
Definition fila_ley_ds_sn : row :=
  fila [("norma_tipo", VStr (u "Ley"));
        ("norma", VStr (u "Decreto Supremo 5"));
        ("norma_numero", VStr (u "S/N"))].

(** A sheet whose only row has a text that is no integer in norma_idnorma. *)
Definition hoja_id_texto : DataFrame :=
  {| columns := ["norma"; "norma_idnorma"];
     rows := [fila_id_texto] |}.

(** A sheet without an article-number column: one row with a plain key
    and an article named in its description, one with a composite key. *)
Definition hoja_sin_numero : DataFrame :=
  {| columns := ["clave_manual"; "nombreparte"];
     rows := [fila [("clave_manual", VStr (u "CPCH"));
                    ("nombreparte", VStr (u "Art" ++ [i_acute] ++ u "culo 5"))];
              fila [("clave_manual", VStr (u "CTRIB.Art31"));
                    ("nombreparte", VStr (u "Inciso primero"))]] |}.

(** A sheet with an article-number column, filled in on the first row only. *)
Definition hoja_con_numero : DataFrame :=
  {| columns := ["clave_manual"; "numero_articulo"];
     rows := [fila [("clave_manual", VStr (u "CTRIB.Art31")); ("numero_articulo", VStr (u "59"))];
              fila [("clave_manual", VStr (u "CTRIB.Art31")); ("numero_articulo", VNaN)]] |}.

(** "Decreto Ley" as the type, a description without a number. *)
Definition fila_decreto_ley : row :=
  fila [("norma_tipo", VStr (u "Decreto Ley"));
        ("norma", VStr (u "D.L. sobre pensiones"));
        ("norma_numero", VInt 3500)].

(** A manual key cell holding blanks only. *)
Definition fila_manual_en_blanco : row :=
  fila [("clave_manual", VStr (u "   "));
        ("norma", VStr (u "Codigo Penal"))].

(** A sheet without manual keys: one law named in its description. *)
Definition hoja_ley : DataFrame :=
  {| columns := ["norma_tipo"; "norma"];
     rows := [fila_ley_19496] |}.

(** * Properties *)

(** ** The runtime model on small inputs *)

Example str_of_Z_neg : str_of_Z (-5) = u "-5".
Proof. reflexivity. Qed.
Example str_of_Z_zero : str_of_Z 0 = u "0".
Proof. reflexivity. Qed.
Example int_of_str_ok : int_of_str (u " +1_000 ") = Some 1000%Z.
Proof. reflexivity. Qed.
Example int_of_str_bad :
  int_of_str (u "1__0") = None ∧ int_of_str (u "abc") = None
  ∧ int_of_str (u "") = None ∧ int_of_str (u "- 5") = None.
Proof. repeat split; reflexivity. Qed.
Example upper_ex : upper (u "ctrib.Art31e") = u "CTRIB.ART31E".
Proof. reflexivity. Qed.
Example strip_ex : strip (u "  a b  ") = u "a b".
Proof. reflexivity. Qed.

(** The examples of use that come with the script's description. *)
Example extraer_41_bis :
  extraer_numero_articulo (VStr (u "Art" ++ [i_acute] ++ u "culo 41 bis")) = u "41 bis".
Proof. vm_compute. reflexivity. Qed.
Example extraer_123 : extraer_numero_articulo (VStr (u "  123  ")) = u "123".
Proof. vm_compute. reflexivity. Qed.
Example extraer_foo : extraer_numero_articulo (VStr (u "foo")) = [].
Proof. vm_compute. reflexivity. Qed.
Example clave_decreto_ley :
  generar_clave (fila [("norma", VStr (u "Decreto Ley 824 1974"))]) = Ok (u "DL8241974").
Proof. vm_compute. reflexivity. Qed.
Example clave_codigo_penal :
  generar_clave (fila [("norma", VStr (u "Codigo Penal")); ("norma_idnorma", VInt 1984)])
  = Ok (u "CPCH").
Proof. vm_compute. reflexivity. Qed.
Example re_sub_empty_matches : re_sub false (Star digit) (u "-") (u "ab1d") = u "-a-b--d-".
Proof. vm_compute. reflexivity. Qed.

(** Cells that are floats, dates and times. *)
Example clave_numero_flotante :
  generar_clave (fila [("norma_tipo", VStr (u "Ley"));
                       ("norma_numero",
                        VFloat {| f_texto := u "3500.0"; f_cero := false;
                                  f_entero := Some 3500%Z |})])
  = Ok (u "L35000").
Proof. vm_compute. reflexivity. Qed.
Example clave_id_flotante :
  generar_clave (fila [("norma_idnorma",
                        VFloat {| f_texto := u "29636.0"; f_cero := false;
                                  f_entero := Some 29636%Z |})])
  = Ok (u "N29636").
Proof. vm_compute. reflexivity. Qed.
Example clave_id_infinito :
  generar_clave (fila [("norma_idnorma",
                        VFloat {| f_texto := u "inf"; f_cero := false; f_entero := None |})])
  = Raise OverflowError.
Proof. vm_compute. reflexivity. Qed.
Example clave_manual_fecha :
  generar_clave (fila [("clave_manual", VFecha (u "2020-01-01 00:00:00"))])
  = Ok (u "2020-01-01 00:00:00").
Proof. vm_compute. reflexivity. Qed.

(** ** Characters and [str] methods *)

Ltac nbool :=
  repeat match goal with
  | H : (_ && _) = true |- _ => apply andb_true_iff in H; destruct H
  | H : (_ || _) = false |- _ => apply orb_false_iff in H; destruct H
  | H : (_ && _) = false |- _ => apply andb_false_iff in H; destruct H
  | H : (_ || _) = true |- _ => apply orb_true_iff in H; destruct H
  | H : negb _ = true |- _ => apply negb_true_iff in H
  | H : negb _ = false |- _ => apply negb_false_iff in H
  | H : (_ <=? _)%N = true |- _ => apply N.leb_le in H
  | H : (_ <=? _)%N = false |- _ => apply N.leb_gt in H
  | H : (_ =? _)%N = true |- _ => apply N.eqb_eq in H
  | H : (_ =? _)%N = false |- _ => apply N.eqb_neq in H
  end.

Lemma upper_chars_elem (c c' : char) :
  c' ∈ upper_chars c →
  upper_chars c' = [c'] ∧ between 97 122 c' = false ∧ (isspace c = false → isspace c' = false).
Proof.
  intros H.
  assert (Hc : (c' = c - 32 ∧ (97 ≤ c ≤ 122 ∨ (224 ≤ c ≤ 254 ∧ c ≠ 247))
               ∨ c' = 83 ∨ c' = 376 ∨ c' = 924
               ∨ (c' = c ∧ ¬ (97 ≤ c ≤ 122) ∧ ¬ (224 ≤ c ≤ 254 ∧ c ≠ 247) ∧ c ≠ 223 ∧ c ≠ 255 ∧ c ≠ 181))%N).
  { revert H. unfold upper_chars, between. repeat case_match; nbool;
      rewrite ?elem_of_cons, ?elem_of_nil; intros; lia. }
  clear H. repeat split.
  - unfold upper_chars, between. repeat case_match; nbool; try done; lia.
  - unfold between. apply andb_false_iff. rewrite N.leb_gt, N.leb_gt. lia.
  - unfold isspace, between. rewrite !orb_false_iff, !andb_false_iff, !N.leb_gt, !N.eqb_neq. lia.
Qed.

Lemma upper_chars_nonempty (c : char) : upper_chars c ≠ [].
Proof. unfold upper_chars. repeat case_match; done. Qed.

Lemma upper_app (a b : str) : upper (a ++ b) = upper a ++ upper b.
Proof. apply bind_app. Qed.

Lemma upper_cons (c : char) (s : str) : upper (c :: s) = upper_chars c ++ upper s.
Proof. reflexivity. Qed.

Lemma elem_of_upper (s : str) (c' : char) :
  c' ∈ upper s ↔ ∃ c, c' ∈ upper_chars c ∧ c ∈ s.
Proof. unfold upper. apply list_elem_of_bind. Qed.

Lemma mayuscula_upper (s : str) : mayuscula (upper s).
Proof.
  apply Forall_forall. intros c' [c [Hc _]]%elem_of_upper.
  by apply upper_chars_elem in Hc as [? _].
Qed.

Lemma upper_mayuscula (s : str) : mayuscula s → upper s = s.
Proof.
  induction 1 as [|c s Hc _ IH]; [done|].
  rewrite upper_cons, Hc, IH. done.
Qed.

Lemma upper_idemp (s : str) : upper (upper s) = upper s.
Proof. apply upper_mayuscula, mayuscula_upper. Qed.

Lemma upper_nonempty (s : str) : s ≠ [] → upper s ≠ [].
Proof.
  destruct s as [|c s]; [done|]. intros _. rewrite upper_cons.
  pose proof (upper_chars_nonempty c). destruct (upper_chars c); done.
Qed.

Lemma upper_Exists_no_espacio (s : str) :
  Exists (no_es isspace) s → Exists (no_es isspace) (upper s).
Proof.
  rewrite !Exists_exists. intros (c & Hc & Hs).
  pose proof (upper_chars_nonempty c) as Hne.
  destruct (upper_chars c) as [|c' t] eqn:E; [done|].
  exists c'. split.
  - apply elem_of_upper. exists c. rewrite E. split; [left | done].
  - assert (Hin : c' ∈ upper_chars c) by (rewrite E; left).
    apply upper_chars_elem in Hin as (_ & _ & H). by apply H.
Qed.

(** *** [strip] *)

Lemma elem_of_rev {A} (x : A) (l : list A) : x ∈ rev l ↔ x ∈ l.
Proof. rewrite !list_elem_of_In. symmetry. apply in_rev. Qed.

Lemma ldrop_head (p : char → bool) (s : str) (c : char) (t : str) :
  ldrop p s = c :: t → p c = false.
Proof.
  induction s as [|a s IH]; simpl; [done|].
  destruct (p a) eqn:E; [done|]. intros [= -> _]. done.
Qed.

Lemma ldrop_Exists (p : char → bool) (s : str) :
  Exists (no_es p) s → Exists (no_es p) (ldrop p s).
Proof.
  induction s as [|a s IH]; simpl; [done|].
  destruct (p a) eqn:E.
  - intros [H|H]%Exists_cons; [congruence | by apply IH].
  - done.
Qed.

Lemma strip_by_Exists (p : char → bool) (s : str) :
  Exists (no_es p) s → Exists (no_es p) (strip_by p s).
Proof.
  intros H. unfold strip_by.
  apply ldrop_Exists in H.
  rewrite Exists_exists in *.
  assert (H' : Exists (no_es p) (ldrop p (rev (ldrop p s)))).
  { apply ldrop_Exists. rewrite Exists_exists. destruct H as (c & Hc & Hp).
    exists c. split; [|done]. by apply elem_of_rev. }
  rewrite Exists_exists in H'. destruct H' as (c & Hc & Hp).
  exists c. split; [|done]. by apply elem_of_rev.
Qed.

Lemma strip_by_last (p : char → bool) (s t : str) (c : char) :
  strip_by p s = t ++ [c] → p c = false.
Proof.
  unfold strip_by. intros H.
  apply (f_equal (@rev _)) in H. rewrite rev_involutive, rev_app_distr in H. simpl in H.
  by apply ldrop_head in H.
Qed.

Lemma strip_by_nonempty_Exists (p : char → bool) (s : str) :
  strip_by p s ≠ [] → Exists (no_es p) (strip_by p s).
Proof.
  intros H. destruct (strip_by p s) as [|a t] eqn:E using rev_ind; [done|].
  apply strip_by_last in E. apply Exists_app. right. by left.
Qed.

Lemma Exists_nonempty {A} (P : A → Prop) (l : list A) : Exists P l → l ≠ [].
Proof. by destruct 1. Qed.

Lemma upper_strip_last (s t : str) (c : char) :
  upper (strip s) = t ++ [c] → isspace c = false.
Proof.
  destruct (strip s) as [|a w _] eqn:E using rev_ind.
  - by destruct t.
  - apply strip_by_last in E. rewrite upper_app. simpl. rewrite app_nil_r.
    pose proof (upper_chars_nonempty a) as Hne.
    destruct (upper_chars a) as [|b q _] eqn:Ea using rev_ind; [done|].
    rewrite app_assoc. intros [_ ->]%app_inj_tail.
    assert (Hin : c ∈ upper_chars a) by (rewrite Ea, elem_of_app, list_elem_of_singleton; by right).
    apply upper_chars_elem in Hin as (_ & _ & H). by apply H.
Qed.

(** ** The matcher and its relation *)

Lemma elem_of_star (p : char → bool) (s m t : str) :
  (m, t) ∈ star p s ↔ s = m ++ t ∧ Forall (λ c, p c = true) m.
Proof.
  revert m t. induction s as [|c s IH]; intros m t; simpl.
  - rewrite list_elem_of_singleton. split.
    + intros [= -> ->]. done.
    + intros [H _]. symmetry in H. apply app_eq_nil in H as [-> ->]. done.
  - destruct (p c) eqn:E.
    + rewrite elem_of_app, list_elem_of_fmap, list_elem_of_singleton. split.
      * intros [([m' t'] & [= -> ->] & H)|[= -> ->]]; [|done].
        apply IH in H as [-> H]. split; [done|]. by constructor.
      * intros [H Hm]. destruct m as [|c' m]; simpl in H.
        -- right. by subst.
        -- left. injection H as -> ->. exists (m, t). split; [done|].
           apply IH. split; [done|]. by inversion Hm.
    + rewrite list_elem_of_singleton. split.
      * intros [= -> ->]. done.
      * intros [H Hm]. destruct m as [|c' m]; simpl in H; [by subst|].
        injection H as -> ->. inversion Hm; congruence.
Qed.

Lemma run_Matches (icase : bool) (r : regex) (bol : bool) (s : str) (g : groups)
    (m t : str) (g' : groups) :
  (m, t, g') ∈ run icase r bol s g ↔ Matches icase r bol s g m t g'.
Proof.
  revert bol s g m t g'.
  induction r as [|a|a|a|r1 IH1 r2 IH2|r1 IH1 r2 IH2|r IH|i r IH| |]; intros bol s g m t g'; simpl.
  - rewrite list_elem_of_singleton. split.
    + intros [= -> -> ->]. constructor.
    + inversion 1; subst. done.
  - destruct s as [|c s]; [|destruct (atom_match icase a c) eqn:E];
      rewrite ?elem_of_nil, ?list_elem_of_singleton; split; try done.
    + inversion 1.
    + intros [= -> -> ->]. by constructor.
    + inversion 1; subst. done.
    + inversion 1; congruence.
  - rewrite list_elem_of_fmap. split.
    + intros ([m' t'] & [= -> -> ->] & [-> H]%elem_of_star). by constructor.
    + inversion 1; subst. exists (m, t). split; [done|]. by apply elem_of_star.
  - destruct s as [|c s]; [|destruct (atom_match icase a c) eqn:E];
      rewrite ?elem_of_nil, ?list_elem_of_fmap; split; try done.
    + inversion 1.
    + intros ([m' t'] & [= -> -> ->] & [-> H]%elem_of_star). by constructor.
    + inversion 1; subst. eexists (_, _). split; [done|]. by apply elem_of_star.
    + inversion 1; congruence.
  - rewrite list_elem_of_bind. split.
    + intros ([[m1 s1] g1] & H2 & H1). apply list_elem_of_bind in H2 as ([[m2 s2] g2] & H3 & H2).
      simpl in *. apply list_elem_of_singleton in H3 as [= -> -> ->].
      econstructor; [by apply IH1 | by apply IH2].
    + inversion 1; subst. exists (m1, s1, g1). split; [|by apply IH1].
      apply list_elem_of_bind. exists (m2, t, g'). split; [by apply list_elem_of_singleton|].
      by apply IH2.
  - rewrite elem_of_app, IH1, IH2. split.
    + intros [?|?]; [by apply M_Alt_l | by apply M_Alt_r].
    + inversion 1; subst; auto.
  - rewrite elem_of_app, IH, list_elem_of_singleton. split.
    + intros [?|[= -> -> ->]]; [by apply M_Opt_some | apply M_Opt_none].
    + inversion 1; subst; auto.
  - rewrite list_elem_of_fmap. split.
    + intros ([[m' t'] g1] & [= -> -> ->] & H). constructor. by apply IH.
    + inversion 1; subst. eexists (_, _, _). split; [done|]. by apply IH.
  - destruct bol; rewrite ?elem_of_nil, ?list_elem_of_singleton; split; try done.
    + intros [= -> -> ->]. constructor.
    + inversion 1; subst. done.
    + inversion 1.
  - destruct s as [|c [|c' s]]; [| destruct (decide (c = 10%N)) as [->|Hc] |].
    + rewrite list_elem_of_singleton. split; [intros [= -> -> ->]; constructor | inversion 1; done].
    + rewrite list_elem_of_singleton. split; [intros [= -> -> ->]; constructor | inversion 1; done].
    + assert (Hnil : (match c with 10%N => [([], [c], g)] | _ => [] end) = ([] : list (str * str * groups))).
      { destruct c as [|p]; [done|]. do 4 (destruct p; try done). }
      rewrite Hnil, elem_of_nil. split; [done | inversion 1; done].
    + assert (Hnil : (match c with 10%N => [] | _ => [] end) = ([] : list (str * str * groups))).
      { destruct c as [|p]; [done|]. do 4 (destruct p; try done). }
      rewrite Hnil, elem_of_nil. split; [done | inversion 1].
Qed.

Ltac inv_matches :=
  repeat match goal with
  | H : Matches _ ?r _ _ _ _ _ _ |- _ =>
      lazymatch r with
      | Seq _ _ => idtac | Group _ _ => idtac | Atom _ => idtac | Plus _ => idtac
      | Star _ => idtac | Bol => idtac | Eol => idtac | Alt _ _ => idtac
      | Opt _ => idtac | Empty => idtac
      end;
      inversion H; clear H; simplify_eq
  end.

Section forma_compuesta.
Variables (icase : bool) (A D L l1 l2 l3 l4 : atom).

Lemma Matches_patron_compuesto (s m t : str) (g' : groups) :
  Matches icase (patron_compuesto A D L l1 l2 l3 l4) true s ∅ m t g' →
  ∃ b c1 c2 c3 c4 d0 d l,
    s = b ++ [c1; c2; c3; c4] ++ (d0 :: d ++ l) ++ t
    ∧ (t = [] ∨ t = [10%N])
    ∧ b ≠ [] ∧ Forall (λ c, atom_match icase A c = true) b
    ∧ atom_match icase l1 c1 = true ∧ atom_match icase l2 c2 = true
    ∧ atom_match icase l3 c3 = true ∧ atom_match icase l4 c4 = true
    ∧ atom_match icase D d0 = true
    ∧ Forall (λ c, atom_match icase D c = true) d
    ∧ Forall (λ c, atom_match icase L c = true) l
    ∧ g' = <[2 := d0 :: d ++ l]> (<[1 := b]> ∅).
Proof.
  unfold patron_compuesto. intros H. inv_matches.
  all: match goal with
       | HA : atom_match icase A ?c4 = true, HD : atom_match icase D ?c = true,
         H1 : atom_match icase l1 ?c3 = true, H2 : atom_match icase l2 ?c2 = true,
         H3 : atom_match icase l3 ?c1 = true, H4 : atom_match icase l4 ?c0 = true,
         FA : Forall _ ?m2, FD : Forall (λ c, atom_match icase D c = true) ?m,
         FL : Forall (λ c, atom_match icase L c = true) ?m5 |- _ =>
           exists (c4 :: m2), c3, c2, c1, c0, c, m, m5
       end.
  all: repeat split; auto; simpl; rewrite <- ?app_assoc; done.
Qed.

Lemma patron_compuesto_Matches (b : str) (c1 c2 c3 c4 d0 : char) (d l : str) :
  b ≠ [] → Forall (λ c, atom_match icase A c = true) b →
  atom_match icase l1 c1 = true → atom_match icase l2 c2 = true →
  atom_match icase l3 c3 = true → atom_match icase l4 c4 = true →
  atom_match icase D d0 = true →
  Forall (λ c, atom_match icase D c = true) d →
  Forall (λ c, atom_match icase L c = true) l →
  ∃ m, Matches icase (patron_compuesto A D L l1 l2 l3 l4) true (b ++ [c1; c2; c3; c4] ++ d0 :: d ++ l) ∅
         m [] (<[2 := d0 :: d ++ l]> (<[1 := b]> ∅)).
Proof.
  intros Hb HA H1 H2 H3 H4 HD FD FL. unfold patron_compuesto.
  destruct b as [|b0 b]; [done|]. inversion HA; subst.
  eexists.
  eapply M_Seq; [constructor|].
  eapply M_Seq; [constructor; simpl; by apply M_Plus|].
  eapply M_Seq.
  { simpl. repeat (eapply M_Seq; [by constructor|]). by constructor. }
  eapply M_Seq; [|constructor].
  replace (d0 :: d ++ l) with ((d0 :: d) ++ l) at 2 by done.
  constructor. eapply M_Seq; [by apply M_Plus|].
  rewrite <- (app_nil_r l) at 1. by apply M_Star.
Qed.
End forma_compuesta.

(** *** Character classes of the patterns *)

Lemma elem_of_char_range (lo hi x : char) :
  x ∈ char_range lo hi ↔ (lo ≤ x ≤ hi)%N.
Proof.
  unfold char_range. rewrite list_elem_of_fmap. split.
  - intros (k & -> & Hk). apply elem_of_seq in Hk. lia.
  - intros H. exists (N.to_nat (x - lo)). split; [lia|]. apply elem_of_seq. lia.
Qed.

Lemma range_icase (lo hi c : char) :
  item_match true (IRange lo hi) c = true
  ↔ ∃ x, (lo ≤ x ≤ hi)%N ∧ lower_char x = lower_char c.
Proof.
  simpl. rewrite existsb_exists. split.
  - intros (x & Hx & He). exists x. apply list_elem_of_In, elem_of_char_range in Hx.
    by apply N.eqb_eq in He.
  - intros (x & Hx & He). exists x. split; [|by apply N.eqb_eq].
    by apply list_elem_of_In, elem_of_char_range.
Qed.

Lemma es_letra_spec (c : char) :
  es_letra c = true ↔ (65 ≤ c ≤ 90 ∨ 97 ≤ c ≤ 122)%N.
Proof.
  unfold es_letra, clase_letra, atom_match. cbn [existsb xorb].
  rewrite orb_false_r, range_icase. change (ch "A") with 65%N. change (ch "Z") with 90%N.
  split.
  - intros (x & Hx & He). revert He. unfold lower_char, between.
    repeat case_match; nbool; lia.
  - intros [H|H].
    + exists c. done.
    + exists (c - 32)%N. split; [lia|]. unfold lower_char, between.
      repeat case_match; nbool; lia.
Qed.

Lemma es_digito_spec (c : char) : atom_match true digit c = isdecimal c.
Proof. simpl. by rewrite orb_false_r. Qed.

Lemma es_base_spec (c : char) :
  es_base c = true ↔ (65 ≤ c ≤ 90 ∨ 97 ≤ c ≤ 122 ∨ 48 ≤ c ≤ 57 ∨ c = 46)%N.
Proof.
  unfold es_base, clase_base, atom_match. cbn [existsb xorb].
  rewrite orb_false_r, !orb_true_iff, !range_icase.
  change (ch "A") with 65%N. change (ch "Z") with 90%N.
  change (ch "0") with 48%N. change (ch "9") with 57%N. change (ch ".") with 46%N.
  cbn [item_match]. rewrite N.eqb_eq.
  split.
  - intros [(x & Hx & He)|[(x & Hx & He)|He]]; revert He; unfold lower_char, between;
      repeat case_match; nbool; lia.
  - intros [H|[H|[H|H]]].
    + left. exists c. done.
    + left. exists (c - 32)%N. split; [lia|]. unfold lower_char, between.
      repeat case_match; nbool; lia.
    + right; left. exists c. done.
    + right; right. by subst.
Qed.

Lemma Forall_es_digito (d : str) :
  Forall (λ c, atom_match true digit c = true) d ↔ Forall (λ c, isdecimal c = true) d.
Proof. apply Forall_iff. intros c. by rewrite es_digito_spec. Qed.

Lemma lit_icase_spec (p c : char) :
  atom_match true (ALit p) c = true ↔ lower_char c = lower_char p.
Proof. simpl. apply N.eqb_eq. Qed.

Lemma isdecimal_spec (c : char) : isdecimal c = true ↔ (48 ≤ c ≤ 57)%N.
Proof. unfold isdecimal, between. rewrite andb_true_iff, !N.leb_le. done. Qed.

(** *** [separar_clave_y_articulo] *)

Lemma ldrop_split (p : char → bool) (s : str) :
  ∃ d, s = d ++ ldrop p s ∧ Forall (λ c, p c = true) d.
Proof.
  induction s as [|a s (d & Hd & Fd)]; simpl.
  - by exists [].
  - destruct (p a) eqn:E.
    + exists (a :: d). split; [by rewrite Hd at 1 | by constructor].
    + by exists [].
Qed.

Lemma ldrop_app_all (p : char → bool) (d l : str) :
  Forall (λ c, p c = true) d → ldrop p (d ++ l) = ldrop p l.
Proof. induction 1 as [|c d Hc _ IH]; simpl; [done|]. by rewrite Hc. Qed.

Lemma ldrop_none (p : char → bool) (l : str) :
  Forall (λ c, p c = false) l → ldrop p l = l.
Proof. destruct 1 as [|c l Hc _]; simpl; [done|]. by rewrite Hc. Qed.

(** Splitting at the last occurrence of a character is unique. *)
Lemma split_last_unique (x : char) (l1 r1 l2 r2 : str) :
  l1 ++ x :: r1 = l2 ++ x :: r2 → x ∉ r1 → x ∉ r2 → l1 = l2 ∧ r1 = r2.
Proof.
  revert l2. induction l1 as [|a l1 IH]; intros [|b l2]; simpl; intros H N1 N2.
  - by injection H as ->.
  - injection H as -> ->. exfalso. apply N1. rewrite elem_of_app, elem_of_cons. auto.
  - injection H as -> <-. exfalso. apply N2. rewrite elem_of_app, elem_of_cons. auto.
  - injection H as -> H. destruct (IH _ H N1 N2) as [-> ->]. done.
Qed.

Lemma forma_articulo_split (art : str) :
  forma_articulo art = true →
  ∃ d0 d l, art = d0 :: d ++ l ∧ isdecimal d0 = true
            ∧ Forall (λ c, isdecimal c = true) d ∧ Forall (λ c, es_letra c = true) l.
Proof.
  destruct art as [|d0 t]; simpl; [done|]. intros [H0 Hl]%andb_true_iff.
  destruct (ldrop_split isdecimal t) as (d & Hd & Fd).
  exists d0, d, (ldrop isdecimal t). repeat split; try done; [congruence|].
  apply Forall_forall. intros c Hc. rewrite forallb_forall in Hl. by apply Hl, list_elem_of_In.
Qed.

Lemma split_forma_articulo (d0 : char) (d l : str) :
  isdecimal d0 = true → Forall (λ c, isdecimal c = true) d → Forall (λ c, es_letra c = true) l →
  forma_articulo (d0 :: d ++ l) = true.
Proof.
  intros H0 Fd Fl. simpl. rewrite H0. simpl.
  rewrite ldrop_app_all by done. rewrite ldrop_none.
  - apply forallb_forall. intros c Hc. rewrite Forall_forall in Fl. by apply Fl, list_elem_of_In.
  - eapply Forall_impl; [exact Fl|]. intros c Hc%es_letra_spec.
    unfold isdecimal, between. apply andb_false_iff. rewrite !N.leb_gt. lia.
Qed.

(** The characters of an article suffix: neither a dot nor a newline. *)
Lemma forma_articulo_chars (art : str) (c : char) :
  forma_articulo art = true → c ∈ art → c ≠ 46%N ∧ c ≠ 10%N.
Proof.
  intros (d0 & d & l & -> & H0 & Fd & Fl)%forma_articulo_split.
  rewrite elem_of_cons, elem_of_app. rewrite Forall_forall in Fd, Fl.
  intros [->|[H|H]].
  - apply isdecimal_spec in H0. lia.
  - apply Fd, isdecimal_spec in H. lia.
  - apply Fl, es_letra_spec in H. lia.
Qed.

Lemma re_clave_articulo_patron :
  re_clave_articulo =
  patron_compuesto clase_base digit clase_letra (ALit 46) (ALit 65) (ALit 82) (ALit 84).
Proof. reflexivity. Qed.

(** The matches of the composite-key pattern. *)
Lemma re_match_clave_articulo (clave : str) (m : match_obj) :
  re_match true re_clave_articulo clave = Some m →
  ∃ b c2 c3 c4 art t,
    clave = b ++ [46%N; c2; c3; c4] ++ art ++ t
    ∧ (t = [] ∨ t = [10%N])
    ∧ forma_compuesta b art = true
    ∧ lower_char c2 = 97%N ∧ lower_char c3 = 114%N ∧ lower_char c4 = 116%N
    ∧ group m 1 = VStr b ∧ group m 2 = VStr art.
Proof.
  unfold re_match, first_match. intros H.
  destruct (head _) as [[[w t] g']|] eqn:Hh; [|done]. injection H as <-.
  apply head_Some in Hh as [rest Hh].
  assert (Hin : (w, t, g') ∈ run true re_clave_articulo true clave ∅) by (rewrite Hh; left).
  apply run_Matches in Hin. rewrite re_clave_articulo_patron in Hin.
  apply Matches_patron_compuesto in Hin
    as (b & c1 & c2 & c3 & c4 & d0 & d & l & -> & Ht & Hb & FA & H1 & H2 & H3 & H4 & HD & FD & FL & ->).
  apply lit_icase_spec in H1, H2, H3, H4.
  assert (c1 = 46%N) as ->.
  { revert H1. unfold lower_char, between. repeat case_match; nbool; lia. }
  exists b, c2, c3, c4, (d0 :: d ++ l), t.
  split; [done|]. split; [done|]. split; [|by repeat split].
  unfold forma_compuesta, nonempty. rewrite bool_decide_eq_false_2 by done.
  rewrite !andb_true_iff. split; [split; [done|]|].
  - apply forallb_forall. intros c Hc. rewrite Forall_forall in FA. by apply FA, list_elem_of_In.
  - apply split_forma_articulo.
    + by rewrite <- es_digito_spec.
    + by apply Forall_es_digito.
    + done.
Qed.

Lemma re_match_clave_articulo_Some (base art : str) :
  forma_compuesta base art = true →
  is_Some (re_match true re_clave_articulo (base ++ u ".ART" ++ art)).
Proof.
  unfold forma_compuesta, nonempty. rewrite !andb_true_iff, negb_true_iff, bool_decide_eq_false.
  intros [[Hb FA] (d0 & d & l & -> & H0 & FD & FL)%forma_articulo_split].
  destruct (patron_compuesto_Matches true clase_base digit clase_letra
              (ALit 46) (ALit 65) (ALit 82) (ALit 84) base 46 65 82 84 d0 d l)
    as [m Hm]; try done.
  - apply Forall_forall. intros c Hc. rewrite forallb_forall in FA. by apply FA, list_elem_of_In.
  - by rewrite es_digito_spec.
  - by apply Forall_es_digito.
  - rewrite <- re_clave_articulo_patron in Hm. apply run_Matches in Hm.
    unfold re_match, first_match. change (u ".ART" ++ d0 :: d ++ l) with ([46; 65; 82; 84] ++ d0 :: d ++ l)%N.
    destruct (run _ _ _ _ _) as [|x xs]; [by apply elem_of_nil in Hm|]. simpl. eauto.
Qed.

Lemma upper_sin_minusculas (s : str) (c : char) :
  c ∈ upper s → ¬ (97 ≤ c ≤ 122)%N.
Proof.
  intros (c0 & Hc & _)%elem_of_upper. apply upper_chars_elem in Hc as (_ & Hc & _).
  unfold between in Hc. apply andb_false_iff in Hc. rewrite !N.leb_gt in Hc. lia.
Qed.

Lemma punto_fuera_de_ART : 46%N ∉ u "ART".
Proof.
  intros H. repeat (apply elem_of_cons in H as [H|H]; [discriminate|]).
  by apply elem_of_nil in H.
Qed.

Lemma mayuscula_app (a b : str) : mayuscula (a ++ b) ↔ mayuscula a ∧ mayuscula b.
Proof. apply Forall_app. Qed.

(** What the decomposer does with the trimmed, upper-cased key. *)
Lemma separar_sobre_clave (v : value) :
  isna v = false →
  let clave := upper (strip (str_of v)) in
  (∃ base art, forma_compuesta base art = true ∧ clave = base ++ u ".ART" ++ art
               ∧ separar_clave_y_articulo v = (VStr base, VStr art))
  ∨ ((∀ base art, forma_compuesta base art = true → clave ≠ base ++ u ".ART" ++ art)
     ∧ separar_clave_y_articulo v = (VStr clave, VNone)).
Proof.
  intros Hna clave. unfold separar_clave_y_articulo. rewrite Hna. fold clave.
  destruct (re_match true re_clave_articulo clave) as [m|] eqn:Hm.
  - left. apply re_match_clave_articulo in Hm
      as (b & c2 & c3 & c4 & art & t & Hc & Ht & Hf & H2 & H3 & H4 & G1 & G2).
    assert (t = []) as ->.
    { destruct Ht as [->| ->]; [done|]. exfalso.
      assert (isspace 10 = false); [|done].
      apply (upper_strip_last (str_of v) (b ++ [46%N; c2; c3; c4] ++ art)).
      fold clave. rewrite Hc. by rewrite <- !app_assoc. }
    rewrite app_nil_r in Hc.
    assert (Hlow : ∀ c, c ∈ clave → ¬ (97 ≤ c ≤ 122)%N) by (intros c; apply upper_sin_minusculas).
    assert (c2 = 65%N ∧ c3 = 82%N ∧ c4 = 84%N) as (-> & -> & ->).
    { assert (Hin : ∀ c, c ∈ [c2; c3; c4] → c ∈ clave).
      { intros c Hin. rewrite Hc, !elem_of_app. right. left. by right. }
      pose proof (Hlow _ (Hin c2 ltac:(by left))).
      pose proof (Hlow _ (Hin c3 ltac:(right; by left))).
      pose proof (Hlow _ (Hin c4 ltac:(do 2 right; by left))).
      revert H2 H3 H4. unfold lower_char, between. repeat case_match; nbool; lia. }
    exists b, art. split; [done|]. split; [done|].
    rewrite G1, G2. simpl. rewrite upper_mayuscula; [done|].
    assert (Hmay : mayuscula clave) by apply mayuscula_upper.
    rewrite Hc in Hmay. by apply mayuscula_app in Hmay as [? _].
  - right. split; [|done]. intros base art Hf Hc.
    destruct (re_match_clave_articulo_Some base art Hf) as [m Hm'].
    rewrite <- Hc in Hm'. congruence.
Qed.

(** C6: on the trimmed, upper-cased key the decomposer splits a suffix
    ".ART", digits, optional letters off a base of letters, digits and
    dots, and returns any other key whole, with no article.  The match is
    on the upper-cased key, so a suffix typed in lower case comes back in
    upper case.  [forma_compuesta] is the shape the pattern accepts; its
    classes are spelled out by [es_base_spec] and [es_letra_spec]. *)
Theorem separar_clave_y_articulo_compuesta (v : value) :
  isna v = false →
  let clave := upper (strip (str_of v)) in
  (∀ base art, forma_compuesta base art = true → clave = base ++ u ".ART" ++ art →
     separar_clave_y_articulo v = (VStr base, VStr art))
  ∧ ((∀ base art, forma_compuesta base art = true → clave ≠ base ++ u ".ART" ++ art) →
     separar_clave_y_articulo v = (VStr clave, VNone))
  ∧ separar_clave_y_articulo (VStr (u "CTRIB.ART31")) = (VStr (u "CTRIB"), VStr (u "31"))
  ∧ separar_clave_y_articulo (VStr (u "DL824.1974.ART41E")) = (VStr (u "DL824.1974"), VStr (u "41E"))
  ∧ separar_clave_y_articulo (VStr (u "CPCH")) = (VStr (u "CPCH"), VNone).
Proof.
  intros Hna clave. split; [|split; [|repeat split; vm_compute; reflexivity]].
  - intros base art Hf Hc.
    destruct (separar_sobre_clave v Hna) as [(b & a & Hf' & Hc' & ->)|[Hno _]];
      [|by destruct (Hno base art Hf)].
    fold clave in Hc'. rewrite Hc in Hc'.
    change (u ".ART" ++ ?x) with (46%N :: (u "ART" ++ x)) in Hc'.
    apply split_last_unique in Hc' as [-> Hr].
    + by apply app_inv_head in Hr as ->.
    + rewrite elem_of_app. intros [H|H]; [by apply punto_fuera_de_ART|].
      unfold forma_compuesta in Hf. apply andb_true_iff in Hf as [_ Hf].
      by destruct (forma_articulo_chars art _ Hf H).
    + rewrite elem_of_app. intros [H|H]; [by apply punto_fuera_de_ART|].
      unfold forma_compuesta in Hf'. apply andb_true_iff in Hf' as [_ Hf'].
      by destruct (forma_articulo_chars a _ Hf' H).
  - intros Hno.
    destruct (separar_sobre_clave v Hna) as [(b & a & Hf' & Hc' & _)|[_ ->]]; [|done].
    by destruct (Hno b a Hf').
Qed.

(** ** The key resolver *)

Lemma paso_idnorma_casos (r : row) :
  (∃ z, paso_idnorma r = Ok (u "N" ++ str_of_Z z))
  ∨ (paso_idnorma r = Ok (u "UNKNOWN")
     ∧ (let idnorma := row_get r "norma_idnorma" (VStr []) in
        truthy idnorma && negb (isna idnorma) = false))
  ∨ (∃ e, paso_idnorma r = Raise e ∧ id_rechazado r e).
Proof.
  unfold paso_idnorma, id_rechazado. cbv zeta.
  destruct (truthy _ && negb (isna _)) eqn:Et; [|by right; left].
  destruct (int_of _) as [z|e] eqn:Ei; [left; eauto|].
  right; right. by exists e.
Qed.

Lemma id_rechazado_paso_idnorma (r : row) (e : exn) :
  id_rechazado r e → paso_idnorma r = Raise e.
Proof.
  unfold id_rechazado, paso_idnorma. cbv zeta. intros [Ht Hi]. by rewrite Ht, Hi.
Qed.

(** What [int] rejects among the cells that pass the test of line 86:
    a text that is no integer literal, a date or time, an infinite
    float. *)
Lemma id_rechazado_casos (r : row) (e : exn) :
  id_rechazado r e ↔
    (e = ValueError ∧ id_no_entero r)
    ∨ (e = TypeError ∧ id_fecha r)
    ∨ (e = OverflowError ∧ id_infinito r).
Proof.
  unfold id_rechazado, id_no_entero, id_fecha, id_infinito, row_get. cbv zeta. split.
  - destruct (r !! "norma_idnorma") as [v|]; simpl; [|by intros [? ?]].
    destruct v as [| |s|z|b|f|s]; simpl; try (by intros [? ?]).
    + destruct (int_of_str s) eqn:Ei; [by intros [? ?]|]. intros [Ht [= <-]].
      left. split; [done|]. exists s. repeat split; try done.
      intros ->. done.
    + destruct (f_entero f) eqn:Ef; [by intros [? ?]|]. intros [Ht [= <-]].
      right; right. split; [done|]. exists f. repeat split; try done.
      rewrite andb_true_r in Ht. by apply negb_true_iff in Ht.
    + intros [_ [= <-]]. right; left. eauto.
  - intros [[-> (s & -> & Hne & Hi)]|[[-> (s & ->)]|[-> (f & -> & Hc & Hf)]]]; simpl.
    + rewrite Hi. by rewrite bool_decide_eq_false_2.
    + done.
    + by rewrite Hc, Hf.
Qed.

Lemma id_no_entero_paso_idnorma (r : row) :
  id_no_entero r → paso_idnorma r = Raise ValueError.
Proof.
  intros H. apply id_rechazado_paso_idnorma, id_rechazado_casos. by left.
Qed.

Lemma sin_clave_hasta_ds_paso_idnorma (r : row) :
  sin_clave_hasta_ds r → generar_clave r = paso_idnorma r.
Proof.
  unfold sin_clave_hasta_ds. cbv zeta. intros (H1 & H2 & H3 & H4 & H5 & H6).
  unfold generar_clave, desde_dfl, desde_dl, desde_ley, desde_ds.
  rewrite H1. cbv zeta. by rewrite H2, H3, H4, H5, H6.
Qed.

(** The resolver returns a key, or raises at [int(idnorma)] after its
    first six steps found nothing. *)
Lemma generar_clave_casos (r : row) :
  (∃ clave, generar_clave r = Ok clave)
  ∨ (∃ e, generar_clave r = Raise e ∧ sin_clave_hasta_ds r ∧ id_rechazado r e).
Proof.
  unfold sin_clave_hasta_ds. cbv zeta.
  unfold generar_clave, desde_dfl, desde_dl, desde_ley, desde_ds.
  destruct (paso_clave_manual r); [eauto|]. cbv zeta.
  destruct (paso_codigos _ _); [eauto|].
  destruct (paso_dfl _ _); [eauto|].
  destruct (paso_dl _ _); [eauto|].
  destruct (paso_ley _ _ _); [eauto|].
  destruct (paso_ds _ _); [eauto|].
  destruct (paso_idnorma_casos r) as [[z Hz]|[[Hu _]|(e & Hr & Hi)]]; eauto.
  right. exists e. split; [done|]. split; [by repeat split | done].
Qed.

Lemma ningun_paso_UNKNOWN (r : row) :
  ningun_paso r → generar_clave r = Ok (u "UNKNOWN").
Proof.
  unfold ningun_paso. cbv zeta. intros [Hs Hi].
  rewrite (sin_clave_hasta_ds_paso_idnorma r Hs).
  unfold paso_idnorma. cbv zeta. by rewrite Hi.
Qed.

(** ** The stored key *)

Lemma Exists_no_espacio_head (c : char) (s : str) :
  isspace c = false → Exists (no_es isspace) (c :: s).
Proof. intros H. by left. Qed.

Lemma paso_clave_manual_no_espacio (r : row) (k : str) :
  paso_clave_manual r = Some k → Exists (no_es isspace) k.
Proof.
  unfold paso_clave_manual. destruct (r !! "clave_manual") as [v|]; [|done].
  destruct (isna v); simpl; [done|]. unfold nonempty.
  destruct (bool_decide (strip (str_of v) = [])) eqn:E; simpl; [done|].
  intros [= <-]. apply bool_decide_eq_false in E.
  by apply upper_Exists_no_espacio, strip_by_nonempty_Exists.
Qed.

Lemma paso_codigos_no_espacio (norma norma_tipo k : str) :
  paso_codigos norma norma_tipo = Some k → Exists (no_es isspace) k.
Proof.
  unfold paso_codigos. destruct (find _ _) as [[p c]|] eqn:E; [|done].
  intros [= <-]. apply find_some in E as [Hin _].
  assert (Hall : Forall (λ pc, Exists (no_es isspace) pc.2) CODIGOS_ESPECIALES).
  { unfold CODIGOS_ESPECIALES. repeat (constructor; [by apply Exists_no_espacio_head|]). constructor. }
  rewrite Forall_forall in Hall. by apply (Hall (p, c)), list_elem_of_In.
Qed.

Lemma generar_clave_no_espacio (r : row) (k : str) :
  generar_clave r = Ok k → Exists (no_es isspace) k.
Proof.
  unfold generar_clave, desde_dfl, desde_dl, desde_ley, desde_ds.
  destruct (paso_clave_manual r) eqn:E1; [intros [= <-]; by eapply paso_clave_manual_no_espacio|].
  cbv zeta.
  destruct (paso_codigos _ _) eqn:E2; [intros [= <-]; by eapply paso_codigos_no_espacio|].
  destruct (paso_dfl _ _) eqn:E3.
  { intros [= <-]. unfold paso_dfl in E3. repeat case_match; simplify_eq; by apply Exists_no_espacio_head. }
  destruct (paso_dl _ _) eqn:E4.
  { intros [= <-]. unfold paso_dl in E4. repeat case_match; simplify_eq; by apply Exists_no_espacio_head. }
  destruct (paso_ley _ _ _) eqn:E5.
  { intros [= <-]. unfold paso_ley in E5. repeat case_match; simplify_eq; by apply Exists_no_espacio_head. }
  destruct (paso_ds _ _) eqn:E6.
  { intros [= <-]. unfold paso_ds in E6. repeat case_match; simplify_eq; by apply Exists_no_espacio_head. }
  destruct (paso_idnorma_casos r) as [[z Hz]|[[Hu _]|(e & Hr & _)]]; rewrite ?Hz, ?Hu, ?Hr;
    intros [= <-]; by apply Exists_no_espacio_head.
Qed.

(** C8 (as the script has it): for every row on which the resolver
    returns, the key kept after resolving and decomposing is a non-empty
    text that [upper] leaves unchanged, and it is "UNKNOWN" when no step
    applies.  On every other row the resolver raises at [int(idnorma)],
    its first six steps having found nothing, and no key is kept. *)
Theorem clave_derivada_no_vacia_y_mayuscula (r : row) :
  (∃ clave base art,
      generar_clave r = Ok clave
      ∧ separar_clave_y_articulo (VStr clave) = (VStr base, art)
      ∧ base ≠ [] ∧ upper base = base
      ∧ (∀ c, c ∈ base → ¬ (97 ≤ c ≤ 122)%N)
      ∧ (ningun_paso r → base = u "UNKNOWN" ∧ art = VNone))
  ∨ (∃ e, generar_clave r = Raise e ∧ sin_clave_hasta_ds r ∧ id_rechazado r e).
Proof.
  destruct (generar_clave_casos r) as [[clave Hk]|He]; [left | by right].
  assert (Hmay : mayuscula (upper (strip clave))) by apply mayuscula_upper.
  destruct (separar_sobre_clave (VStr clave) eq_refl) as [(b & a & Hf & Hc & Hs)|[_ Hs]];
    simpl in *.
  - exists clave, b, (VStr a). split; [done|]. split; [done|].
    unfold forma_compuesta, nonempty in Hf.
    rewrite !andb_true_iff, negb_true_iff, bool_decide_eq_false in Hf.
    destruct Hf as [[Hb _] _]. split; [done|].
    assert (Hup : upper b = b).
    { apply upper_mayuscula. rewrite Hc in Hmay. by apply mayuscula_app in Hmay as [? _]. }
    split; [done|]. split.
    + intros c Hin. rewrite <- Hup in Hin. by eapply upper_sin_minusculas.
    + intros Hn. apply ningun_paso_UNKNOWN in Hn. rewrite Hn in Hk. injection Hk as <-.
      vm_compute in Hs. by injection Hs as <- <-.
  - exists clave, (upper (strip clave)), VNone. split; [done|]. split; [done|].
    split; [|split; [|split]].
    + apply upper_nonempty. eapply Exists_nonempty, strip_by_Exists.
      by eapply generar_clave_no_espacio.
    + apply upper_idemp.
    + intros c. apply upper_sin_minusculas.
    + intros Hn. apply ningun_paso_UNKNOWN in Hn. rewrite Hn in Hk. by injection Hk as <-.
Qed.

(** C8 as stated fails: on the row of [fila_id_texto] the first six steps
    find nothing and [int] rejects the text of norma_idnorma; the resolver
    raises, the derived columns of a sheet with that row are not computed,
    and no key, "UNKNOWN" or other, is stored. *)
Lemma clave_derivada_sin_clave :
  rows hoja_id_texto = [fila_id_texto]
  ∧ paso_clave_manual fila_id_texto = None
  ∧ generar_clave fila_id_texto = Raise ValueError
  ∧ derivar_columnas hoja_id_texto = Raise ValueError.
Proof. repeat split; vm_compute; reflexivity. Qed.

(** ** The derived columns *)

Lemma apply_rows_lookup {A B : Type} (f : A → result B) (l : list A) (ys : list B) (i : nat) (x : A) :
  apply_rows f l = Ok ys → l !! i = Some x → ∃ y, f x = Ok y ∧ ys !! i = Some y.
Proof.
  revert ys i. induction l as [|a l IH]; intros ys i; simpl; [done|].
  destruct (f a) as [y|] eqn:Ea; [|done].
  destruct (apply_rows f l) as [ys'|] eqn:El; [|done].
  intros [= <-]. destruct i as [|i]; simpl.
  - intros [= <-]. eauto.
  - intros Hi. by apply IH.
Qed.

Lemma set_column_lookup (c : string) (vals : list value) (df : DataFrame) (i : nat) (r : row) (v : value) :
  rows df !! i = Some r → vals !! i = Some v →
  rows (set_column c vals df) !! i = Some (<[c := v]> r).
Proof. intros Hr Hv. simpl. rewrite lookup_zip_with, Hr. simpl. by rewrite Hv. Qed.

Lemma column_lookup (c : string) (df : DataFrame) (i : nat) (r : row) :
  rows df !! i = Some r → column c df !! i = Some (row_get r c VNaN).
Proof. intros Hr. unfold column. by rewrite list_lookup_fmap, Hr. Qed.

Lemma columns_set_column (c c' : string) (vals : list value) (df : DataFrame) :
  c' ≠ c → c' ∈ columns (set_column c vals df) ↔ c' ∈ columns df.
Proof.
  intros Hne. simpl. case_bool_decide; [done|].
  rewrite elem_of_app, list_elem_of_singleton. split; [intros [?|?]; [done|congruence] | by left].
Qed.

Lemma columna_url_norma_pdf_lookup (df : DataFrame) (i : nat) (r : row) :
  rows df !! i = Some r →
  ∃ r', rows (columna_url_norma_pdf df) !! i = Some r'
        ∧ r' !! "numero_articulo" = r !! "numero_articulo".
Proof.
  intros Hr. unfold columna_url_norma_pdf. case_match; [|eauto].
  eexists. split.
  - apply set_column_lookup; [done|]. by rewrite list_lookup_fmap, Hr.
  - by rewrite lookup_insert_ne.
Qed.

Lemma columna_nombreparte_normalizado_lookup (df : DataFrame) (i : nat) (r : row) :
  rows df !! i = Some r →
  ∃ r', rows (columna_nombreparte_normalizado df) !! i = Some r'
        ∧ r' !! "numero_articulo" = r !! "numero_articulo".
Proof.
  intros Hr. unfold columna_nombreparte_normalizado. case_match; [|eauto].
  eexists. split.
  - apply set_column_lookup; [done|]. by rewrite list_lookup_fmap, (column_lookup _ _ _ _ Hr).
  - by rewrite lookup_insert_ne.
Qed.

Lemma columna_numero_articulo_lookup (arts : list value) (df : DataFrame) (i : nat) (r : row) (a : value) :
  rows df !! i = Some r → arts !! i = Some a →
  ∃ r', rows (columna_numero_articulo arts df) !! i = Some r'
        ∧ r' !! "numero_articulo" =
            Some (if bool_decide ("numero_articulo" ∈ columns df)
                  then (if isna (row_get r "numero_articulo" VNaN) then a
                        else row_get r "numero_articulo" VNaN)
                  else a).
Proof.
  intros Hr Ha. unfold columna_numero_articulo.
  destruct (bool_decide ("numero_articulo" ∈ columns df)); simpl.
  - eexists. split.
    + apply set_column_lookup; [done|]. unfold fillna.
      by rewrite lookup_zip_with, (column_lookup _ _ _ _ Hr); simpl; rewrite Ha.
    + by rewrite lookup_insert_eq.
  - eexists. split; [by apply set_column_lookup|]. by rewrite lookup_insert_eq.
Qed.

(** C2 (as the script has it): a row whose article number is absent
    (no such column, or a missing cell) gets the article that the key
    decomposer split off the resolved key, [None] when the key has no
    composite suffix; a cell the sheet already fills is kept.  The
    article extractor takes no part. *)
Theorem numero_articulo_derivado (df df' : DataFrame) (i : nat) (r : row) :
  derivar_columnas df = Ok df' → rows df !! i = Some r →
  ∃ clave r',
    generar_clave r = Ok clave ∧ rows df' !! i = Some r'
    ∧ r' !! "numero_articulo" =
        Some (let articulo := (separar_clave_y_articulo (VStr clave)).2 in
              if bool_decide ("numero_articulo" ∈ columns df)
              then (let previo := row_get r "numero_articulo" VNaN in
                    if isna previo then articulo else previo)
              else articulo).
Proof.
  unfold derivar_columnas. intros Hd Hr.
  destruct (apply_rows generar_clave (rows df)) as [claves|] eqn:Ha; [|done].
  destruct (apply_rows_lookup _ _ _ _ _ Ha Hr) as (clave & Hk & Hci).
  exists clave. cbv zeta in Hd.
  set (df1 := set_column "clave" (VStr <$> claves) df) in *.
  assert (H1 : rows df1 !! i = Some (<["clave" := VStr clave]> r)).
  { apply set_column_lookup; [done|]. by rewrite list_lookup_fmap, Hci. }
  set (pares := separar_clave_y_articulo <$> column "clave" df1) in *.
  assert (Hp : pares !! i = Some (separar_clave_y_articulo (VStr clave))).
  { unfold pares. rewrite list_lookup_fmap, (column_lookup _ _ _ _ H1). simpl.
    unfold row_get. by rewrite lookup_insert_eq. }
  destruct pares as [|p ps] eqn:Ep; [done|]. rewrite <- Ep in *. clear Ep p ps.
  injection Hd as <-.
  set (df2 := set_column "clave" pares.*1 df1) in *.
  assert (H2 : rows df2 !! i = Some (<["clave" := (separar_clave_y_articulo (VStr clave)).1]> (<["clave" := VStr clave]> r))).
  { apply set_column_lookup; [done|]. by rewrite list_lookup_fmap, Hp. }
  assert (Hp2 : pares.*2 !! i = Some (separar_clave_y_articulo (VStr clave)).2).
  { by rewrite list_lookup_fmap, Hp. }
  destruct (columna_numero_articulo_lookup _ _ _ _ _ H2 Hp2) as (r3 & H3 & Hn3).
  destruct (columna_nombreparte_normalizado_lookup _ _ _ H3) as (r4 & H4 & Hn4).
  destruct (columna_url_norma_pdf_lookup _ _ _ H4) as (r5 & H5 & Hn5).
  exists r5. split; [done|]. split; [done|].
  rewrite Hn5, Hn4, Hn3. cbv zeta. f_equal.
  assert (Hcols : bool_decide ("numero_articulo" ∈ columns df2) = bool_decide ("numero_articulo" ∈ columns df)).
  { apply bool_decide_ext. unfold df2, df1. by rewrite !columns_set_column. }
  rewrite Hcols. unfold row_get. by rewrite !lookup_insert_ne.
Qed.

Lemma numero_articulo_derivado_witness :
  ∃ df' r',
    derivar_columnas hoja_con_numero = Ok df'
    ∧ rows df' !! 1 = Some r'
    ∧ r' !! "numero_articulo" = Some (VStr (u "31")).
Proof.
  destruct (derivar_columnas hoja_con_numero) as [df'|e] eqn:Hd; [|by vm_compute in Hd].
  destruct (numero_articulo_derivado hoja_con_numero df' 1
              (fila [("clave_manual", VStr (u "CTRIB.Art31")); ("numero_articulo", VNaN)])
              Hd eq_refl) as (clave & r' & Hk & Hr & Hn).
  vm_compute in Hk. injection Hk as <-.
  exists df', r'. split; [done|]. split; [done|]. rewrite Hn. vm_compute. reflexivity.
Defined.

(** C2 as stated fails: the first row of [hoja_sin_numero] has no article
    number and names "Articulo 5" (accented) in its description; the
    extractor would give "5", the sheet gets [None]. *)
Lemma numero_articulo_no_viene_del_extractor :
  ∃ df' r r',
    rows hoja_sin_numero !! 0 = Some r
    ∧ r !! "numero_articulo" = None
    ∧ extraer_numero_articulo (row_get r "nombreparte" VNaN) = u "5"
    ∧ derivar_columnas hoja_sin_numero = Ok df'
    ∧ rows df' !! 0 = Some r'
    ∧ r' !! "numero_articulo" = Some VNone.
Proof.
  destruct (derivar_columnas hoja_sin_numero) as [df'|e] eqn:Hd; [|by vm_compute in Hd].
  vm_compute in Hd. injection Hd as <-.
  do 3 eexists. repeat split; vm_compute; reflexivity.
Qed.

(** ** The claims about single functions *)

(** C1 (code at the claim's inputs): the three spellings do not meet.
    "Art. 5" gives "articulo 5"; in the two spellings with the full word
    the prefix rule fires on the first three letters of "articulo" and the
    result is "articulo iculo 5". *)
Theorem normalizar_nombreparte_variantes :
  normalizar_nombreparte (VStr (u "Art. 5")) = u "articulo 5"
  ∧ normalizar_nombreparte (VStr (articulo_acentuado ++ u "   5")) = u "articulo iculo 5"
  ∧ normalizar_nombreparte (VStr (u "Articulo 5")) = u "articulo iculo 5".
Proof. repeat split; vm_compute; reflexivity. Qed.

(** C10: the marker of the article pattern matches inside a longer word:
    "part 31" holds neither "articulo" nor "art." and yields "31". *)
Theorem extraer_numero_articulo_dentro_de_palabra :
  extraer_numero_articulo (VStr (u "part 31")) = u "31"
  ∧ contains (u "articulo") (u "part 31") = false
  ∧ contains (u "art.") (u "part 31") = false.
Proof. repeat split; vm_compute; reflexivity. Qed.

(** C7 as stated fails: the empty string is not null for [pd.isna]; it
    comes back as the base key, with no article. *)
Lemma separar_cadena_vacia :
  isna (VStr []) = false
  ∧ separar_clave_y_articulo (VStr []) = (VStr [], VNone)
  ∧ separar_clave_y_articulo (VStr []) ≠ (VNone, VNone).
Proof. repeat split; discriminate. Qed.

(** C7 (as the script has it): the pair (None, None) is returned for the
    null keys of [pd.isna] ([None], NaN) and for no other; the empty
    string yields the empty base key and no article. *)
Theorem separar_clave_nula (v : value) :
  (separar_clave_y_articulo v = (VNone, VNone) ↔ isna v = true)
  ∧ separar_clave_y_articulo VNone = (VNone, VNone)
  ∧ separar_clave_y_articulo VNaN = (VNone, VNone)
  ∧ separar_clave_y_articulo (VStr []) = (VStr [], VNone).
Proof.
  split; [|by repeat split].
  unfold separar_clave_y_articulo. destruct (isna v) eqn:E; split; try done.
  destruct (re_match _ _ _); discriminate.
Qed.

(** C5: a manual key that is present and not blank is the resolved key,
    trimmed and upper-cased, whatever the other cells hold. *)
Theorem clave_manual_prevalece (r : row) (v : value) :
  r !! "clave_manual" = Some v → isna v = false → strip (str_of v) ≠ [] →
  generar_clave r = Ok (upper (strip (str_of v))).
Proof.
  intros Hr Hna Hne. unfold generar_clave, paso_clave_manual.
  rewrite Hr, Hna. simpl. unfold nonempty. by rewrite bool_decide_eq_false_2.
Qed.

Lemma clave_manual_prevalece_witness :
  generar_clave fila_manual = Ok (u "CTRIB.ART31E").
Proof.
  apply (clave_manual_prevalece fila_manual (VStr (u " ctrib.Art31e ")));
    [reflexivity | reflexivity | vm_compute; discriminate].
Defined.

(** C4 as stated fails: a text cell of norma_idnorma that is no integer
    literal reaches [int] and the resolver raises. *)
Lemma generar_clave_id_texto_falla :
  fila_id_texto !! "norma_idnorma" = Some (VStr (u "abc"))
  ∧ int_of_str (u "abc") = None
  ∧ generar_clave fila_id_texto = Raise ValueError.
Proof. repeat split; vm_compute; reflexivity. Qed.

(** C4 (as the script has it): the resolver returns a key for every row
    on which [int] does not reject norma_idnorma, and the key is "UNKNOWN"
    when no step applies; it raises exactly on the rows that its first
    six steps leave without a key and whose norma_idnorma is truthy, not
    missing and rejected by [int]: [ValueError] for a non-empty text that
    is no integer literal, [TypeError] for a date or time, [OverflowError]
    for an infinite float. *)
Theorem generar_clave_devuelve_clave (r : row) :
  ((∀ e, ¬ id_rechazado r e) →
     ∃ clave, generar_clave r = Ok clave ∧ (ningun_paso r → clave = u "UNKNOWN"))
  ∧ (∀ e, generar_clave r = Raise e ↔ sin_clave_hasta_ds r ∧ id_rechazado r e)
  ∧ (∀ e, id_rechazado r e ↔
          (e = ValueError ∧ id_no_entero r)
          ∨ (e = TypeError ∧ id_fecha r)
          ∨ (e = OverflowError ∧ id_infinito r))
  ∧ generar_clave fila_id_fecha = Raise TypeError.
Proof.
  split; [|split; [|split; [apply id_rechazado_casos | vm_compute; reflexivity]]].
  - destruct (generar_clave_casos r) as [[clave Hk]|(e & Hr & Hs & Hi)].
    + intros _. exists clave. split; [done|]. intros Hn%ningun_paso_UNKNOWN. congruence.
    + intros Hn. by destruct (Hn e).
  - intros e. split.
    + destruct (generar_clave_casos r) as [[clave Hk]|(e' & Hr & Hs & Hi)]; [congruence|].
      intros He. rewrite Hr in He. by injection He as <-.
    + intros [Hs Hi].
      by rewrite (sin_clave_hasta_ds_paso_idnorma r Hs), (id_rechazado_paso_idnorma r e Hi).
Qed.

Lemma generar_clave_devuelve_clave_witness :
  ∃ clave, generar_clave fila_id_entero = Ok clave
           ∧ (ningun_paso fila_id_entero → clave = u "UNKNOWN").
Proof.
  apply (proj1 (generar_clave_devuelve_clave fila_id_entero)).
  intros e [_ He]. vm_compute in He. discriminate.
Defined.

(** C3 as stated fails: with no norma_numero and no norma_idnorma the
    row resolves to "UNKNOWN". *)
Lemma generar_clave_ley_n_sin_numero :
  fila_ley_n !! "clave_manual" = None
  ∧ paso_codigos ley_n_19496_norma (u "ley") = None
  ∧ generar_clave fila_ley_n = Ok (u "UNKNOWN")
  ∧ generar_clave fila_ley_n ≠ Ok (u "L19496").
Proof. repeat split; vm_compute; [reflexivity .. | discriminate]. Qed.

(** C3 (as the script has it): for norm type "Ley" and description
    "Ley N<degree> 19.496" without a manual key, the "ley" pattern finds
    nothing (between "ley" and the number it allows only "num" or its
    accented form, with an optional dot); the key is "L" and the digits of
    norma_numero when that cell is usable, else the outcome of the
    norma_idnorma step.  The description "Ley 19.496" is captured by the
    pattern and gives "L19496". *)
Theorem generar_clave_ley_n_19496 (r : row) :
  r !! "clave_manual" = None →
  r !! "norma_tipo" = Some (VStr (u "Ley")) →
  r !! "norma" = Some (VStr ley_n_19496) →
  re_search true re_ley ley_n_19496_norma = None
  ∧ generar_clave r =
      (let norma_numero := row_get r "norma_numero" (VStr []) in
       if truthy norma_numero && negb (isna norma_numero)
          && nonempty (limpiar_numero norma_numero)
       then Ok (u "L" ++ limpiar_numero norma_numero)
       else paso_idnorma r)
  ∧ limpiar_numero (VStr (u "19.496")) = u "19496"
  ∧ (λ m, group m 1) <$> re_search true re_ley (u "ley 19.496") = Some (VStr (u "19.496"))
  ∧ generar_clave fila_ley_19496 = Ok (u "L19496").
Proof.
  intros Hm Ht Hn.
  assert (Hs : re_search true re_ley ley_n_19496_norma = None) by (vm_compute; reflexivity).
  split; [done|]. split; [|repeat split; vm_compute; reflexivity].
  unfold generar_clave, paso_clave_manual, row_get. rewrite Hm, Ht, Hn. cbn [default from_option id str_of].
  replace (strip (lower ley_n_19496)) with ley_n_19496_norma by (vm_compute; reflexivity).
  replace (strip (lower (u "Ley"))) with (u "ley") by (vm_compute; reflexivity).
  replace (paso_codigos ley_n_19496_norma (u "ley")) with (@None str) by (vm_compute; reflexivity).
  unfold desde_dfl.
  replace (paso_dfl ley_n_19496_norma (u "ley")) with (@None str) by (vm_compute; reflexivity).
  unfold desde_dl.
  replace (paso_dl ley_n_19496_norma (u "ley")) with (@None str) by (vm_compute; reflexivity).
  unfold desde_ley, desde_ds.
  replace (paso_ds ley_n_19496_norma (u "ley")) with (@None str) by (vm_compute; reflexivity).
  unfold paso_ley. rewrite Hs.
  replace (contains (u "ley") (u "ley") || contains (u "ley") ley_n_19496_norma) with true
    by (vm_compute; reflexivity).
  cbv zeta.
  destruct (truthy _ && negb (isna _)); simpl; [|done].
  by destruct (nonempty _).
Qed.

Lemma generar_clave_ley_n_19496_witness :
  generar_clave fila_ley_n_numero = Ok (u "L19496").
Proof.
  rewrite (proj1 (proj2 (generar_clave_ley_n_19496 fila_ley_n_numero eq_refl eq_refl eq_refl))).
  vm_compute. reflexivity.
Defined.

(** A typed step whose pattern finds nothing yields no key, whether or
    not its containment test held; the "ley" step then turns to
    norma_numero. *)
Lemma paso_dfl_sin_patron (norma norma_tipo : str) :
  re_search true re_dfl norma = None → paso_dfl norma norma_tipo = None.
Proof. intros H. unfold paso_dfl. rewrite H. by destruct (_ || _). Qed.

Lemma paso_dl_sin_patron (norma norma_tipo : str) :
  re_search true re_dl norma = None → paso_dl norma norma_tipo = None.
Proof. intros H. unfold paso_dl. rewrite H. by destruct (_ || _). Qed.

Lemma paso_ds_sin_patron (norma norma_tipo : str) :
  re_search true re_ds norma = None → paso_ds norma norma_tipo = None.
Proof. intros H. unfold paso_ds. rewrite H. by destruct (_ || _). Qed.

Lemma paso_ley_sin_patron (norma norma_tipo : str) (norma_numero : value) :
  re_search true re_ley norma = None →
  paso_ley norma norma_tipo norma_numero
  = if (contains (u "ley") norma_tipo || contains (u "ley") norma)
       && truthy norma_numero && negb (isna norma_numero)
       && nonempty (limpiar_numero norma_numero)
    then Some (u "L" ++ limpiar_numero norma_numero) else None.
Proof.
  intros H. unfold paso_ley. rewrite H.
  destruct (_ || _); [|done]. simpl.
  destruct (truthy norma_numero && negb (isna norma_numero)); [|done]. simpl.
  by destruct (nonempty _).
Qed.

(** C9 as stated fails: the row of type "Ley" described as "Decreto
    Supremo 5" with norma_numero "77" passes the "ley" test and fails the
    "ley" pattern, and the resolver stops there with "L77", although the
    decreto-supremo step after it would yield "DS5". *)
Lemma generar_clave_ley_se_detiene_en_numero :
  contains (u "ley") (strip (lower (str_of (row_get fila_ley_ds_77 "norma_tipo" (VStr []))))) = true
  ∧ re_search true re_ley (strip (lower (str_of (row_get fila_ley_ds_77 "norma" (VStr []))))) = None
  ∧ paso_ds (strip (lower (str_of (row_get fila_ley_ds_77 "norma" (VStr [])))))
            (strip (lower (str_of (row_get fila_ley_ds_77 "norma_tipo" (VStr []))))) = Some (u "DS5")
  ∧ generar_clave fila_ley_ds_77 = Ok (u "L77").
Proof. repeat split; vm_compute; reflexivity. Qed.

(** C9 (as the script has it): on a row without manual key or special
    code, a typed step that is reached (the steps before it yield no key)
    and whose pattern finds nothing hands over to the steps after it, in
    order, whether or not its containment test held, with one exception:
    the "ley" step whose test held first turns to norma_numero, and stops
    with "L" and its digits when norma_numero is truthy, not missing and
    holds a digit; otherwise it hands over as well. *)
Theorem generar_clave_sigue_tras_patron_fallido (r : row) :
  let norma := strip (lower (str_of (row_get r "norma" (VStr [])))) in
  let norma_tipo := strip (lower (str_of (row_get r "norma_tipo" (VStr [])))) in
  let norma_numero := row_get r "norma_numero" (VStr []) in
  let ley_con_numero :=
    (contains (u "ley") norma_tipo || contains (u "ley") norma)
    && truthy norma_numero && negb (isna norma_numero)
    && nonempty (limpiar_numero norma_numero) in
  paso_clave_manual r = None →
  paso_codigos norma norma_tipo = None →
  (re_search true re_dfl norma = None →
     generar_clave r
     = primera_clave [paso_dl norma norma_tipo;
                      paso_ley norma norma_tipo norma_numero;
                      paso_ds norma norma_tipo] (paso_idnorma r))
  ∧ (paso_dfl norma norma_tipo = None → re_search true re_dl norma = None →
     generar_clave r
     = primera_clave [paso_ley norma norma_tipo norma_numero;
                      paso_ds norma norma_tipo] (paso_idnorma r))
  ∧ (paso_dfl norma norma_tipo = None → paso_dl norma norma_tipo = None →
     re_search true re_ley norma = None →
     generar_clave r
     = if ley_con_numero then Ok (u "L" ++ limpiar_numero norma_numero)
       else primera_clave [paso_ds norma norma_tipo] (paso_idnorma r))
  ∧ (paso_dfl norma norma_tipo = None → paso_dl norma norma_tipo = None →
     paso_ley norma norma_tipo norma_numero = None →
     re_search true re_ds norma = None →
     generar_clave r = paso_idnorma r).
Proof.
  intros norma norma_tipo norma_numero ley_con_numero Hm Hc.
  assert (Hg : generar_clave r = desde_dfl r norma norma_tipo norma_numero).
  { unfold generar_clave. rewrite Hm. cbv zeta. fold norma norma_tipo norma_numero.
    by rewrite Hc. }
  pose proof (paso_dfl_sin_patron norma norma_tipo) as Hdfl.
  pose proof (paso_dl_sin_patron norma norma_tipo) as Hdl.
  pose proof (paso_ds_sin_patron norma norma_tipo) as Hds.
  pose proof (paso_ley_sin_patron norma norma_tipo norma_numero) as Hley.
  fold ley_con_numero in Hley.
  rewrite Hg. unfold desde_dfl, desde_dl, desde_ley, desde_ds. simpl primera_clave.
  split; [|split; [|split]].
  - intros H1. by rewrite (Hdfl H1).
  - intros H1 H2. by rewrite H1, (Hdl H2).
  - intros H1 H2 H3. rewrite H1, H2, (Hley H3). by destruct ley_con_numero.
  - intros H1 H2 H3 H4. by rewrite H1, H2, H3, (Hds H4).
Qed.

(** The row of type "decreto con fuerza de ley" described as "decreto
    supremo n<degree> 5", without norma_numero, passes the DFL test and
    the "ley" test, fails both patterns, and is resolved by the
    decreto-supremo step to "DS5"; so is the row of [fila_ley_ds_sn],
    whose norma_numero "S/N" holds no digit. *)
Lemma generar_clave_sigue_tras_patron_fallido_witness :
  contains (u "decreto con fuerza de ley")
    (strip (lower (str_of (row_get fila_dfl_ds "norma_tipo" (VStr []))))) = true
  ∧ contains (u "ley")
      (strip (lower (str_of (row_get fila_dfl_ds "norma_tipo" (VStr []))))) = true
  ∧ row_get fila_dfl_ds "norma_numero" (VStr []) = VStr []
  ∧ generar_clave fila_dfl_ds = Ok (u "DS5")
  ∧ generar_clave fila_ley_ds_sn = Ok (u "DS5").
Proof.
  split; [vm_compute; reflexivity|]. split; [vm_compute; reflexivity|].
  split; [vm_compute; reflexivity|]. split.
  - destruct (generar_clave_sigue_tras_patron_fallido fila_dfl_ds eq_refl eq_refl)
      as (_ & _ & H & _).
    rewrite H; vm_compute; reflexivity.
  - destruct (generar_clave_sigue_tras_patron_fallido fila_ley_ds_sn eq_refl eq_refl)
      as (_ & _ & H & _).
    rewrite H; vm_compute; reflexivity.
Defined.

Lemma separar_clave_y_articulo_compuesta_witness :
  separar_clave_y_articulo (VStr (u " ctrib.Art31e ")) = (VStr (u "CTRIB"), VStr (u "31E")).
Proof.
  apply (proj1 (separar_clave_y_articulo_compuesta (VStr (u " ctrib.Art31e ")) eq_refl)
           (u "CTRIB") (u "31E")); reflexivity.
Defined.

(** * Further properties *)

(** ** Substitution and search *)

Lemma first_match_Atom (icase : bool) (a : atom) (bol : bool) (s : str) :
  first_match icase (Atom a) bol s =
  match s with
  | c :: s' => if atom_match icase a c then Some ([c], s', ∅) else None
  | [] => None
  end.
Proof. unfold first_match. simpl. destruct s as [|c s']; [done|]. by destruct (atom_match icase a c). Qed.

Lemma sub_from_Atom_borra (icase : bool) (a : atom) (bol : bool) (s : str) :
  sub_from icase (Atom a) [] bol 0 s = List.filter (λ c, negb (atom_match icase a c)) s.
Proof.
  revert bol. induction s as [|c s IH]; intros bol.
  - cbn [sub_from]. by rewrite first_match_Atom.
  - cbn [sub_from List.filter]. rewrite first_match_Atom.
    destruct (atom_match icase a c); simpl; by rewrite IH.
Qed.

Lemma limpiar_numero_filter (texto : value) :
  limpiar_numero texto = if isna texto then [] else List.filter isdecimal (str_of texto).
Proof.
  unfold limpiar_numero, re_sub, re_no_digito. destruct (isna texto); [done|].
  rewrite sub_from_Atom_borra. apply filter_ext. intros c. simpl.
  by destruct (isdecimal c).
Qed.

(** X1: [limpiar_numero] keeps exactly the decimal digits of the text of
    its argument, in their order, and gives the empty text for a missing
    value. *)
Theorem limpiar_numero_filtra_digitos (texto : value) :
  limpiar_numero texto = if isna texto then [] else List.filter isdecimal (str_of texto).
Proof. apply limpiar_numero_filter. Qed.

(** What a successful search has found: a match at the head of a suffix,
    at the start of the text when the pattern asks for it. *)
Lemma search_from_Some (icase : bool) (r : regex) (bol : bool) (s : str) (m : match_obj) :
  search_from icase r bol s = Some m →
  ∃ pre suf t,
    s = pre ++ suf
    ∧ Matches icase r (bol && bool_decide (pre = [])) suf ∅ (whole m) t (caps m).
Proof.
  revert bol. induction s as [|c s IH]; intros bol; simpl.
  - unfold first_match. destruct (head _) as [[[w t] g]|] eqn:Hh; [|done].
    intros [= <-]. apply head_Some in Hh as [rest Hh].
    exists [], [], t. split; [done|]. rewrite andb_true_r. apply run_Matches. rewrite Hh. by left.
  - unfold first_match. destruct (head _) as [[[w t] g]|] eqn:Hh.
    + intros [= <-]. apply head_Some in Hh as [rest Hh].
      exists [], (c :: s), t. split; [done|]. rewrite andb_true_r.
      apply run_Matches. rewrite Hh. by left.
    + intros (pre & suf & t & -> & Hm)%IH. exists (c :: pre), suf, t. split; [done|].
      by rewrite andb_false_r in *.
Qed.

(** ** The key patterns *)

Lemma digitos_cons (c : char) (m : str) :
  atom_match true digit c = true → Forall (λ c, atom_match true digit c = true) m →
  digitos (c :: m).
Proof.
  intros Hc Hm. split; [done|]. constructor; [by rewrite <- es_digito_spec|].
  by apply Forall_es_digito.
Qed.

Lemma digitos_4 (a b c d : char) :
  atom_match true digit a = true → atom_match true digit b = true →
  atom_match true digit c = true → atom_match true digit d = true →
  digitos ([a] ++ [b] ++ [c] ++ [d]).
Proof.
  rewrite !es_digito_spec. intros. split; [done|]. by repeat constructor.
Qed.

Lemma Matches_re_dfl (b : bool) (s w t : str) (g : groups) :
  Matches true re_dfl b s ∅ w t g →
  ∃ n, g !! 1 = Some n ∧ digitos n
       ∧ (g !! 2 = None ∨ ∃ y, g !! 2 = Some y ∧ digitos y).
Proof.
  cbv [re_dfl seqs lits lit d4]. intros H. inv_matches.
  - eexists. split; [by simplify_map_eq|]. split; [by apply digitos_cons|].
    right. eexists. split; [by simplify_map_eq|]. by apply digitos_4.
  - eexists. split; [by simplify_map_eq|]. split; [by apply digitos_cons|]. by left.
Qed.

Lemma Matches_re_dl (b : bool) (s w t : str) (g : groups) :
  Matches true re_dl b s ∅ w t g →
  ∃ n, g !! 1 = Some n ∧ digitos n
       ∧ (g !! 2 = None ∨ ∃ y, g !! 2 = Some y ∧ digitos y).
Proof.
  cbv [re_dl seqs lits lit d4]. intros H. inv_matches.
  all: eexists; (split; [by simplify_map_eq|]); (split; [by apply digitos_cons|]).
  all: first [ by left | right; eexists; split; [by simplify_map_eq|]; by apply digitos_4 ].
Qed.

Lemma Matches_re_ds (b : bool) (s w t : str) (g : groups) :
  Matches true re_ds b s ∅ w t g → ∃ n, g !! 1 = Some n ∧ digitos n.
Proof.
  cbv [re_ds seqs lits lit]. intros H. inv_matches.
  all: eexists; (split; [by simplify_map_eq|]); by apply digitos_cons.
Qed.

Lemma Matches_re_ley (b : bool) (s w t : str) (g : groups) :
  Matches true re_ley b s ∅ w t g →
  ∃ c n, g !! 1 = Some (c :: n) ∧ isdecimal c = true.
Proof.
  cbv [re_ley seqs lits lit]. intros H. inv_matches.
  all: eexists _, _; (split; [by simplify_map_eq|]); by rewrite <- es_digito_spec.
Qed.

Lemma digitos_app (a b : str) : digitos a → digitos b → digitos (a ++ b).
Proof.
  intros [Ha Fa] [Hb Fb]. split; [by destruct a|]. by apply Forall_app.
Qed.

Lemma u_app (a b : string) : u (a ++ b) = u a ++ u b.
Proof. induction a as [|c a IH]; simpl; [done|]. by rewrite IH. Qed.

Lemma string_of_uint_digitos (d : Decimal.uint) :
  Forall (λ c, isdecimal c = true) (u (NilEmpty.string_of_uint d)).
Proof. induction d; simpl; constructor; done. Qed.

Lemma str_of_Z_chars (z : Z) :
  str_of_Z z ≠ [] ∧ Forall (λ c, car_clave c = true) (str_of_Z z).
Proof.
  assert (Hd : ∀ d, Forall (λ c, car_clave c = true) (u (NilZero.string_of_uint d))
                    ∧ u (NilZero.string_of_uint d) ≠ []).
  { intros d. assert (H := string_of_uint_digitos d). split.
    - destruct d; simpl in *; try (by repeat constructor);
        (eapply Forall_impl; [exact H|]; intros c Hc; unfold car_clave; by rewrite Hc, orb_true_r).
    - destruct d; simpl; done. }
  unfold str_of_Z, NilZero.string_of_int.
  destruct (Z.to_int z) as [d|d]; destruct (Hd d) as [HF Hne].
  - done.
  - simpl. split; [done|]. by constructor.
Qed.

Lemma search_Matches (icase : bool) (r : regex) (s : str) (m : match_obj) :
  re_search icase r s = Some m →
  ∃ b suf t, Matches icase r b suf ∅ (whole m) t (caps m).
Proof. intros (pre & suf & t & _ & H)%search_from_Some. eauto. Qed.

Lemma group_Some (m : match_obj) (i : nat) (t : str) :
  caps m !! i = Some t → group m i = VStr t.
Proof. unfold group. by intros ->. Qed.

Lemma group_None (m : match_obj) (i : nat) :
  caps m !! i = None → group m i = VNone.
Proof. unfold group. by intros ->. Qed.

Lemma truthy_digitos (y : str) : digitos y → truthy (VStr y) = true.
Proof. intros [Hy _]. simpl. by rewrite bool_decide_eq_false_2. Qed.

Lemma paso_dfl_forma (norma norma_tipo k : str) :
  paso_dfl norma norma_tipo = Some k → ∃ ds, digitos ds ∧ k = u "DFL" ++ ds.
Proof.
  unfold paso_dfl. destruct (_ || _); [|done].
  destruct (re_search true re_dfl norma) as [m|] eqn:Hs; [|done].
  apply search_Matches in Hs as (b & suf & t & Hm).
  apply Matches_re_dfl in Hm as (n & H1 & Hn & [H2|(y & H2 & Hy)]).
  - rewrite (group_Some _ _ _ H1), (group_None _ _ H2). simpl. intros [= <-]. eauto.
  - rewrite (group_Some _ _ _ H1), (group_Some _ _ _ H2). unfold or_empty.
    rewrite (truthy_digitos y Hy), (truthy_digitos y Hy). simpl. intros [= <-].
    exists (n ++ y). split; [by apply digitos_app | done].
Qed.

Lemma paso_dl_forma (norma norma_tipo k : str) :
  paso_dl norma norma_tipo = Some k → ∃ ds, digitos ds ∧ k = u "DL" ++ ds.
Proof.
  unfold paso_dl. destruct (_ || _); [|done].
  destruct (re_search true re_dl norma) as [m|] eqn:Hs; [|done].
  apply search_Matches in Hs as (b & suf & t & Hm).
  apply Matches_re_dl in Hm as (n & H1 & Hn & [H2|(y & H2 & Hy)]).
  - rewrite (group_Some _ _ _ H1), (group_None _ _ H2). simpl. intros [= <-]. eauto.
  - rewrite (group_Some _ _ _ H1), (group_Some _ _ _ H2). unfold or_empty.
    rewrite (truthy_digitos y Hy), (truthy_digitos y Hy). simpl. intros [= <-].
    exists (n ++ y). split; [by apply digitos_app | done].
Qed.

Lemma paso_ds_forma (norma norma_tipo k : str) :
  paso_ds norma norma_tipo = Some k → ∃ ds, digitos ds ∧ k = u "DS" ++ ds.
Proof.
  unfold paso_ds. destruct (_ || _); [|done].
  destruct (re_search true re_ds norma) as [m|] eqn:Hs; [|done].
  apply search_Matches in Hs as (b & suf & t & Hm).
  apply Matches_re_ds in Hm as (n & H1 & Hn).
  rewrite (group_Some _ _ _ H1). simpl. intros [= <-]. eauto.
Qed.

Lemma filter_digitos (s : str) : Forall (λ c, isdecimal c = true) (List.filter isdecimal s).
Proof.
  apply Forall_forall. intros c Hc%list_elem_of_In%filter_In. by destruct Hc.
Qed.

Lemma paso_ley_forma (norma norma_tipo : str) (norma_numero : value) (k : str) :
  paso_ley norma norma_tipo norma_numero = Some k → ∃ ds, digitos ds ∧ k = u "L" ++ ds.
Proof.
  unfold paso_ley. destruct (_ || _); [|done].
  destruct (re_search true re_ley norma) as [m|] eqn:Hs.
  - apply search_Matches in Hs as (b & suf & t & Hm).
    apply Matches_re_ley in Hm as (c & n & H1 & Hc).
    rewrite (group_Some _ _ _ H1). intros [= <-]. eexists. split; [|done].
    rewrite limpiar_numero_filter. simpl. rewrite Hc. split; [done|].
    constructor; [done|]. apply filter_digitos.
  - destruct (_ && _); [|done]. cbv zeta. unfold nonempty.
    destruct (bool_decide _) eqn:E; simpl; [done|]. apply bool_decide_eq_false in E.
    intros [= <-]. eexists. split; [|done]. split; [done|].
    rewrite limpiar_numero_filter. destruct (isna norma_numero); [done|]. apply filter_digitos.
Qed.

Lemma generar_clave_sin_manual (r : row) (k : str) :
  paso_clave_manual r = None → generar_clave r = Ok k → forma_clave_derivada k.
Proof.
  intros Hm. unfold generar_clave, desde_dfl, desde_dl, desde_ley, desde_ds. rewrite Hm. cbv zeta.
  unfold forma_clave_derivada.
  destruct (paso_codigos _ _) as [c|] eqn:E2.
  { intros [= <-]. left. unfold paso_codigos in E2.
    destruct (find _ _) as [[p c']|] eqn:Ef; [|done]. injection E2 as <-.
    apply find_some in Ef as [Hin _]. apply list_elem_of_fmap. exists (p, c').
    split; [done|]. by apply list_elem_of_In. }
  destruct (paso_dfl _ _) eqn:E3.
  { intros [= <-]. apply paso_dfl_forma in E3 as (ds & Hd & ->). right; left.
    exists (u "DFL"), ds. repeat split; try done; try apply Hd. set_solver. }
  destruct (paso_dl _ _) eqn:E4.
  { intros [= <-]. apply paso_dl_forma in E4 as (ds & Hd & ->). right; left.
    exists (u "DL"), ds. repeat split; try done; try apply Hd. set_solver. }
  destruct (paso_ley _ _ _) eqn:E5.
  { intros [= <-]. apply paso_ley_forma in E5 as (ds & Hd & ->). right; left.
    exists (u "L"), ds. repeat split; try done; try apply Hd. set_solver. }
  destruct (paso_ds _ _) eqn:E6.
  { intros [= <-]. apply paso_ds_forma in E6 as (ds & Hd & ->). right; left.
    exists (u "DS"), ds. repeat split; try done; try apply Hd. set_solver. }
  destruct (paso_idnorma_casos r) as [[z Hz]|[[Hu _]|(e & Hr & _)]]; rewrite ?Hz, ?Hu, ?Hr;
    intros [= <-]; eauto.
Qed.

Lemma car_clave_spec (c : char) :
  car_clave c = true → isspace c = false ∧ upper_chars c = [c] ∧ c ≠ 46%N.
Proof.
  unfold car_clave, isdecimal, between. intros H.
  assert (Hc : (65 ≤ c ≤ 90 ∨ 48 ≤ c ≤ 57 ∨ c = 45)%N).
  { repeat (apply orb_true_iff in H as [H|H]); nbool; lia. }
  clear H. repeat split.
  - unfold isspace, between. rewrite !orb_false_iff, !andb_false_iff, !N.leb_gt, !N.eqb_neq. lia.
  - unfold upper_chars, between. repeat case_match; nbool; try done; lia.
  - lia.
Qed.

Lemma strip_by_sin (p : char → bool) (s : str) :
  Forall (no_es p) s → strip_by p s = s.
Proof.
  intros H. unfold strip_by. rewrite (ldrop_none p s H), ldrop_none.
  - apply rev_involutive.
  - apply Forall_forall. intros c Hc. apply (proj1 (elem_of_rev c s)) in Hc.
    rewrite Forall_forall in H. by apply H.
Qed.

Lemma forma_clave_derivada_chars (k : str) :
  forma_clave_derivada k → k ≠ [] ∧ Forall (λ c, car_clave c = true) k.
Proof.
  intros [H|[(p & ds & Hp & [Hne Hd] & ->)|[[z ->]| ->]]].
  - assert (Hall : Forall (λ k, k ≠ [] ∧ Forall (λ c, car_clave c = true) k) CODIGOS_ESPECIALES.*2).
    { repeat (constructor; [split; [done | by repeat constructor]|]). constructor. }
    rewrite Forall_forall in Hall. by apply Hall.
  - split; [by destruct p, ds|]. apply Forall_app. split.
    + repeat (apply elem_of_cons in Hp as [->|Hp]; [by repeat constructor|]).
      by apply elem_of_nil in Hp.
    + eapply Forall_impl; [exact Hd|]. intros c Hc. unfold car_clave. by rewrite Hc, orb_true_r.
  - split; [done|]. constructor; [done|]. apply str_of_Z_chars.
  - split; [done|]. by repeat constructor.
Qed.

Lemma separar_sin_punto (k : str) :
  Forall (λ c, car_clave c = true) k →
  separar_clave_y_articulo (VStr k) = (VStr k, VNone).
Proof.
  intros Hk.
  assert (Hs : strip k = k).
  { apply strip_by_sin. eapply Forall_impl; [exact Hk|]. intros c Hc. by apply car_clave_spec in Hc as [? _]. }
  assert (Hu : upper k = k).
  { apply upper_mayuscula. eapply Forall_impl; [exact Hk|]. intros c Hc. by apply car_clave_spec in Hc as (_ & ? & _). }
  destruct (separar_sobre_clave (VStr k) eq_refl) as [(b & a & Hf & Hc & _)|[_ H]]; simpl in *.
  - exfalso. rewrite Hs, Hu in Hc. rewrite Forall_forall in Hk.
    assert (Hin : 46%N ∈ k) by (rewrite Hc, elem_of_app; right; by left).
    apply Hk, car_clave_spec in Hin as (_ & _ & ?). done.
  - by rewrite H, Hs, Hu.
Qed.

(** X3: a key that [generar_clave] derives without a manual key is never
    taken apart by [separar_clave_y_articulo]: it comes back whole, with
    no article. *)
Theorem clave_sin_manual_no_se_separa (r : row) (k : str) :
  paso_clave_manual r = None → generar_clave r = Ok k →
  separar_clave_y_articulo (VStr k) = (VStr k, VNone).
Proof.
  intros Hm Hk. apply separar_sin_punto.
  by apply forma_clave_derivada_chars, (generar_clave_sin_manual r).
Qed.

Lemma clave_sin_manual_no_se_separa_witness :
  separar_clave_y_articulo (VStr (u "L19496")) = (VStr (u "L19496"), VNone).
Proof.
  apply (clave_sin_manual_no_se_separa fila_ley_19496 (u "L19496")); vm_compute; reflexivity.
Defined.

(** *** The canonical form of the base key *)

Lemma strip_by_head (p : char → bool) (s : str) (c : char) (t : str) :
  strip_by p s = c :: t → p c = false.
Proof.
  unfold strip_by. intros H.
  destruct (ldrop_split p (rev (ldrop p s))) as (d & Hd & _).
  apply (f_equal (@rev _)) in Hd. rewrite rev_involutive, rev_app_distr, H in Hd.
  simpl in Hd. by apply ldrop_head in Hd.
Qed.

Lemma strip_by_fix (p : char → bool) (s : str) :
  (∀ c t, s = c :: t → p c = false) → (∀ t c, s = t ++ [c] → p c = false) →
  strip_by p s = s.
Proof.
  intros Hh Hl. unfold strip_by.
  assert (H1 : ldrop p s = s).
  { destruct s as [|c t]; [done|]. simpl. by rewrite (Hh c t). }
  rewrite H1. destruct s as [|c t _] using rev_ind; [done|].
  rewrite rev_app_distr. simpl. rewrite (Hl t c) by done. simpl.
  by rewrite rev_involutive.
Qed.

Lemma upper_strip_head (s : str) (c : char) (t : str) :
  upper (strip s) = c :: t → isspace c = false.
Proof.
  destruct (strip s) as [|a w] eqn:E; [done|].
  apply strip_by_head in E. rewrite upper_cons.
  pose proof (upper_chars_nonempty a) as Hne.
  destruct (upper_chars a) as [|b q] eqn:Ea; [done|]. simpl. intros [= -> _].
  assert (Hin : c ∈ upper_chars a) by (rewrite Ea; by left).
  apply upper_chars_elem in Hin as (_ & _ & H). by apply H.
Qed.

(** Trimming and upper-casing a second time changes nothing. *)
Lemma clave_canonica (s : str) :
  upper (strip (upper (strip s))) = upper (strip s).
Proof.
  assert (H : strip (upper (strip s)) = upper (strip s)).
  { apply strip_by_fix; [intros c t; apply upper_strip_head | intros t c; apply upper_strip_last]. }
  rewrite H. apply upper_idemp.
Qed.

Lemma separar_de_canonica (v : value) :
  isna v = false →
  separar_clave_y_articulo (VStr (upper (strip (str_of v)))) = separar_clave_y_articulo v.
Proof.
  intros Hna. unfold separar_clave_y_articulo. rewrite Hna. simpl.
  by rewrite clave_canonica.
Qed.

Lemma es_base_no_espacio (c : char) : es_base c = true → isspace c = false.
Proof.
  intros H%es_base_spec. unfold isspace, between.
  rewrite !orb_false_iff, !andb_false_iff, !N.leb_gt, !N.eqb_neq. lia.
Qed.

(** X4: the base key that [separar_clave_y_articulo] returns is trimmed
    and in upper case.  A key returned whole is returned whole again, and
    a base put back together with ".ART" and its article splits into the
    same base and article. *)
Theorem separar_base_canonica (v : value) (b : str) (a : value) :
  separar_clave_y_articulo v = (VStr b, a) →
  strip b = b ∧ upper b = b
  ∧ (a = VNone → separar_clave_y_articulo (VStr b) = (VStr b, VNone))
  ∧ (∀ art, a = VStr art →
       separar_clave_y_articulo (VStr (b ++ u ".ART" ++ art)) = (VStr b, VStr art)).
Proof.
  intros H.
  assert (Hna : isna v = false).
  { destruct (isna v) eqn:E; [|done]. unfold separar_clave_y_articulo in H. by rewrite E in H. }
  pose proof (separar_de_canonica v Hna) as Hcan.
  destruct (separar_sobre_clave v Hna) as [(base & art & Hf & Hc & Hs)|[_ Hs]];
    rewrite Hs in H; injection H as <- <-.
  - assert (Hmay : mayuscula (upper (strip (str_of v)))) by apply mayuscula_upper.
    rewrite Hc in Hmay. apply mayuscula_app in Hmay as [Hmay _].
    unfold forma_compuesta in Hf. rewrite !andb_true_iff in Hf. destruct Hf as [[_ Hb] _].
    split; [|split; [by apply upper_mayuscula|split; [done|]]].
    + apply strip_by_sin, Forall_forall. intros c Hin. apply es_base_no_espacio.
      rewrite forallb_forall in Hb. by apply Hb, list_elem_of_In.
    + intros art' [= <-]. by rewrite <- Hc, Hcan.
  - split; [|split; [by apply upper_idemp|split; [|done]]].
    + apply strip_by_fix; [intros c t; apply upper_strip_head | intros t c; apply upper_strip_last].
    + intros _. by rewrite Hcan.
Qed.

Lemma separar_base_canonica_witness :
  separar_clave_y_articulo (VStr (u "DL824.1974.ART41E")) = (VStr (u "DL824.1974"), VStr (u "41E"))
  ∧ separar_clave_y_articulo (VStr (u "DL824.1974")) = (VStr (u "DL824.1974"), VNone).
Proof.
  assert (H : separar_clave_y_articulo (VStr (u " dl824.1974.Art41e ")) = (VStr (u "DL824.1974"), VStr (u "41E")))
    by (vm_compute; reflexivity).
  destruct (separar_base_canonica _ _ _ H) as (_ & _ & _ & Hr).
  split; [exact (Hr _ eq_refl)|]. vm_compute. reflexivity.
Defined.

(** ** What a match consumes and captures *)

Lemma Matches_app (icase : bool) (r : regex) (b : bool) (s : str) (g : groups)
    (w t : str) (g' : groups) :
  Matches icase r b s g w t g' → s = w ++ t.
Proof.
  induction 1; simpl; try done.
  by rewrite <- app_assoc, <- IHMatches2.
Qed.

Lemma Matches_caps (icase : bool) (r : regex) (b : bool) (s : str) (g : groups)
    (w t : str) (g' : groups) (i : nat) (n : str) :
  Matches icase r b s g w t g' → g' !! i = Some n →
  g !! i = Some n ∨ ∀ c, c ∈ n → c ∈ w.
Proof.
  induction 1; intros Hn; auto.
  - destruct (IHMatches2 Hn) as [H1|H2].
    + destruct (IHMatches1 H1) as [?|H3]; [by left|].
      right. intros c Hc. rewrite elem_of_app. left. auto.
    + right. intros c Hc. rewrite elem_of_app. right. auto.
  - destruct (decide (i0 = i)) as [->|Hne].
    + rewrite lookup_insert_eq in Hn. injection Hn as ->. by right.
    + rewrite lookup_insert_ne in Hn by done. auto.
Qed.

(** *** [extraer_numero_articulo] *)

Lemma lit_spec (p c : char) : atom_match false (ALit p) c = true ↔ c = p.
Proof. simpl. apply N.eqb_eq. Qed.

Section numero_tras_marca.
Variables (icase : bool) (P R : regex).

(** A marker [P], blanks, then group 1 opening with digits. *)
Lemma Matches_numero_tras_marca (b : bool) (s : str) (g0 : groups) (w t : str) (g : groups) :
  Matches icase (Seq P (Seq (Star space) (Group 1 (Seq (Plus digit) R)))) b s g0 w t g →
  ∃ m1 s1 g1 c n,
    Matches icase P b s g0 m1 s1 g1
    ∧ g !! 1 = Some (c :: n) ∧ atom_match icase digit c = true.
Proof.
  intros H. inv_matches.
  do 3 eexists. eexists _, _. split; [eassumption|].
  split; [by rewrite lookup_insert_eq | done].
Qed.

End numero_tras_marca.

Lemma Matches_marca_articulo (b : bool) (s : str) (g0 : groups) (w t : str) (g : groups) :
  Matches false (Alt re_articulo (Seq (lits "art") (Opt (lit ".")))) b s g0 w t g →
  ∃ s', s = 97%N :: s'.
Proof.
  cbv [re_articulo seqs lits lit]. intros H. inv_matches.
  all: repeat match goal with
       | H : atom_match false (ALit _) _ = true |- _ => apply lit_spec in H; subst
       end.
  all: by eexists.
Qed.

Lemma Matches_re_num_articulo (b : bool) (s w t : str) (g : groups) :
  Matches false re_num_articulo b s ∅ w t g →
  ∃ c n, g !! 1 = Some (c :: n) ∧ isdecimal c = true ∧ c ∈ s ∧ 97%N ∈ s.
Proof.
  intros H.
  pose proof (Matches_app _ _ _ _ _ _ _ _ H) as Hs.
  assert (Hg : ∀ n, g !! 1 = Some n → ∀ c, c ∈ n → c ∈ w).
  { intros n Hn. by destruct (Matches_caps _ _ _ _ _ _ _ _ 1 n H Hn). }
  apply Matches_numero_tras_marca in H as (m1 & s1 & g1 & c & n & HP & Hn & Hc).
  apply Matches_marca_articulo in HP as [s' Hs'].
  exists c, n. split; [done|]. split; [revert Hc; simpl; by rewrite orb_false_r|].
  split.
  - rewrite Hs, elem_of_app. left. apply (Hg _ Hn). by left.
  - rewrite Hs'. by left.
Qed.

Lemma Matches_re_solo_numero (b : bool) (s w t : str) (g : groups) :
  Matches false re_solo_numero b s ∅ w t g →
  ∃ c n, s = (c :: n) ++ t ∧ (t = [] ∨ t = [10%N])
         ∧ isdecimal c = true ∧ Forall (λ c, isdecimal c = true) n
         ∧ g !! 1 = Some (c :: n).
Proof.
  cbv [re_solo_numero seqs]. intros H. inv_matches.
  all: exists c, m; (split; [done|]); (split; [auto|]).
  all: (split; [revert H0; simpl; by rewrite orb_false_r|]).
  all: (split; [eapply Forall_impl; [exact H1|]; intros x Hx; revert Hx; simpl; by rewrite orb_false_r|]).
  all: by simplify_map_eq.
Qed.

Lemma re_solo_numero_Matches (c : char) (n : str) :
  isdecimal c = true → Forall (λ c, isdecimal c = true) n →
  ∃ w, Matches false re_solo_numero true (c :: n) ∅ w [] (<[1 := c :: n]> ∅).
Proof.
  intros Hc Hn. cbv [re_solo_numero seqs]. eexists.
  eapply M_Seq; [constructor|].
  eapply M_Seq; [|constructor].
  constructor. rewrite <- (app_nil_r n) at 1. apply M_Plus.
  - simpl. by rewrite Hc.
  - eapply Forall_impl; [exact Hn|]. intros x Hx. simpl. by rewrite Hx.
Qed.

Lemma isdecimal_no_espacio (c : char) : isdecimal c = true → isspace c = false.
Proof.
  intros H%isdecimal_spec. unfold isspace, between.
  rewrite !orb_false_iff, !andb_false_iff, !N.leb_gt, !N.eqb_neq. lia.
Qed.

Lemma re_search_solo_numero (d : str) :
  digitos d → (λ m, group m 1) <$> re_search false re_solo_numero d = Some (VStr d).
Proof.
  intros [Hne Hd]. destruct d as [|c n]; [done|]. inversion Hd as [|? ? Hc Hn]; subst.
  destruct (re_solo_numero_Matches c n Hc Hn) as [w Hm].
  apply run_Matches in Hm.
  unfold re_search. simpl. unfold first_match.
  destruct (run false re_solo_numero true (c :: n) ∅) as [|[[w' t'] g'] rest] eqn:Hr;
    [by apply elem_of_nil in Hm|].
  simpl. f_equal.
  assert (Hin : (w', t', g') ∈ run false re_solo_numero true (c :: n) ∅) by (rewrite Hr; by left).
  apply run_Matches, Matches_re_solo_numero in Hin
    as (c' & n' & Hs & Ht & _ & _ & Hg).
  apply group_Some. simpl. rewrite Hg. f_equal.
  destruct Ht as [-> | ->]; [by rewrite app_nil_r in Hs|].
  exfalso. assert (Hin : 10%N ∈ c :: n) by (rewrite Hs, elem_of_app; right; by left).
  rewrite Forall_forall in Hd. by apply Hd in Hin.
Qed.

Lemma re_search_num_articulo_None (d : str) :
  Forall (λ c, isdecimal c = true) d → re_search false re_num_articulo d = None.
Proof.
  intros Hd. destruct (re_search false re_num_articulo d) as [m|] eqn:Hs; [|done].
  apply search_from_Some in Hs as (pre & suf & t & -> & Hm).
  apply Matches_re_num_articulo in Hm as (_ & _ & _ & _ & _ & Ha).
  rewrite Forall_forall in Hd. assert (Hin : 97%N ∈ pre ++ suf) by (rewrite elem_of_app; by right).
  by apply Hd in Hin.
Qed.

(** X5: when the text, lower-cased and trimmed, is a bare run of decimal
    digits, [extraer_numero_articulo] returns those digits. *)
Theorem extraer_numero_solo (texto : value) (d : str) :
  isna texto = false → strip (lower (str_of texto)) = d → digitos d →
  extraer_numero_articulo texto = d.
Proof.
  intros Hna Ht Hd. unfold extraer_numero_articulo. rewrite Hna, Ht.
  rewrite (re_search_num_articulo_None d) by apply Hd.
  assert (Hs : strip d = d).
  { apply strip_by_sin. destruct Hd as [_ Hd]. eapply Forall_impl; [exact Hd|].
    intros c. apply isdecimal_no_espacio. }
  rewrite Hs. pose proof (re_search_solo_numero d Hd) as H.
  destruct (re_search false re_solo_numero d) as [m|]; [|done].
  simpl in H. injection H as ->. done.
Qed.

Lemma extraer_numero_solo_witness :
  extraer_numero_articulo (VStr (u "  123  ")) = u "123".
Proof.
  apply (extraer_numero_solo (VStr (u "  123  ")) (u "123")); [reflexivity | reflexivity |].
  split; [discriminate | by repeat constructor].
Defined.

Lemma strip_by_keep_head (p : char → bool) (c : char) (n : str) :
  p c = false → ∃ n', strip_by p (c :: n) = c :: n'.
Proof.
  intros Hc. unfold strip_by. cbn [ldrop]. rewrite Hc.
  destruct (ldrop_split p (rev (c :: n))) as (d & Hd & Fd).
  destruct (ldrop p (rev (c :: n))) as [|a k] eqn:Ek using rev_ind.
  - rewrite app_nil_r in Hd. simpl in Hd. rewrite <- Hd in Fd.
    apply Forall_app in Fd as [_ Fd]. inversion Fd; congruence.
  - clear IHk. apply (f_equal (@rev _)) in Hd.
    rewrite rev_involutive, !rev_app_distr in Hd. simpl in Hd.
    injection Hd as -> _. rewrite rev_app_distr. simpl. eauto.
Qed.

Lemma elem_of_ldrop (p : char → bool) (c : char) (s : str) : c ∈ ldrop p s → c ∈ s.
Proof.
  destruct (ldrop_split p s) as (d & Hd & _). intros H. rewrite Hd, elem_of_app. by right.
Qed.

Lemma elem_of_strip_by (p : char → bool) (c : char) (s : str) : c ∈ strip_by p s → c ∈ s.
Proof.
  unfold strip_by. intros H. apply (proj1 (elem_of_rev _ _)) in H.
  apply elem_of_ldrop in H. apply (proj1 (elem_of_rev _ _)) in H.
  by apply elem_of_ldrop in H.
Qed.

Lemma lower_char_decimal (c : char) : isdecimal (lower_char c) = true → lower_char c = c.
Proof.
  intros H%isdecimal_spec. revert H. unfold lower_char, between.
  repeat case_match; try done;
    repeat match goal with
           | H : _ && _ = true |- _ => apply andb_true_iff in H as [? ?]
           | H : (_ <=? _)%N = true |- _ => apply N.leb_le in H
           end; lia.
Qed.

Lemma elem_of_lower_decimal (c : char) (s : str) :
  c ∈ lower s → isdecimal c = true → c ∈ s.
Proof.
  unfold lower. intros (c' & -> & Hc)%list_elem_of_fmap Hd.
  by rewrite (lower_char_decimal c' Hd).
Qed.

(** X6: what [extraer_numero_articulo] returns is empty or begins with a
    decimal digit that occurs in the text of its argument. *)
Theorem extraer_numero_empieza_con_digito (texto : value) :
  extraer_numero_articulo texto = []
  ∨ ∃ c n, extraer_numero_articulo texto = c :: n
           ∧ isdecimal c = true ∧ c ∈ str_of texto.
Proof.
  unfold extraer_numero_articulo. destruct (isna texto); [by left|].
  set (s := strip (lower (str_of texto))).
  assert (Hs : ∀ c, c ∈ s → isdecimal c = true → c ∈ str_of texto).
  { intros c Hc Hd. apply elem_of_strip_by in Hc. by apply elem_of_lower_decimal. }
  destruct (re_search false re_num_articulo s) as [m|] eqn:E1.
  - right. apply search_from_Some in E1 as (pre & suf & t & Hsplit & Hm).
    apply Matches_re_num_articulo in Hm as (c & n & Hg & Hd & Hc & _).
    rewrite (group_Some m 1 _ Hg). cbn [str_of].
    destruct (strip_by_keep_head isspace c n (isdecimal_no_espacio c Hd)) as [n' Hn].
    exists c, n'. split; [exact Hn|]. split; [done|].
    apply Hs; [|done]. rewrite Hsplit, elem_of_app. by right.
  - destruct (re_search false re_solo_numero (strip s)) as [m|] eqn:E2; [|by left].
    right. apply search_from_Some in E2 as (pre & suf & t & Hsplit & Hm).
    apply Matches_re_solo_numero in Hm as (c & n & Hsuf & _ & Hd & _ & Hg).
    rewrite (group_Some m 1 _ Hg). cbn [str_of].
    exists c, n. split; [done|]. split; [done|].
    apply Hs; [|done]. apply (elem_of_strip_by isspace). unfold strip in Hsplit.
    rewrite Hsplit, Hsuf, elem_of_app. right. by left.
Qed.

Lemma search_sin_digitos (icase : bool) (r : regex) (s : str) :
  (∀ b s w t g, Matches icase r b s ∅ w t g → ∃ c n, g !! 1 = Some (c :: n) ∧ isdecimal c = true) →
  Forall (λ c, isdecimal c = false) s →
  re_search icase r s = None.
Proof.
  intros Hr Hs. destruct (re_search icase r s) as [m|] eqn:E; [|done].
  apply search_from_Some in E as (pre & suf & t & -> & Hm).
  destruct (Hr _ _ _ _ _ Hm) as (c & n & Hg & Hc).
  destruct (Matches_caps _ _ _ _ _ _ _ _ 1 _ Hm Hg) as [?|Hin]; [done|].
  apply Matches_app in Hm. rewrite Forall_forall in Hs.
  assert (Hcs : c ∈ pre ++ suf).
  { rewrite Hm, !elem_of_app. right. left. apply Hin. by left. }
  apply Hs in Hcs. congruence.
Qed.

Lemma digitos_head (n : str) : digitos n → ∃ c n', n = c :: n' ∧ isdecimal c = true.
Proof. intros [Hne Hn]. destruct n as [|c n']; [done|]. inversion Hn. eauto. Qed.

Lemma sin_digitos_strip_lower (s : str) :
  Forall (λ c, isdecimal c = false) s →
  Forall (λ c, isdecimal c = false) (strip (lower s)).
Proof.
  rewrite !Forall_forall. intros H c Hc.
  destruct (isdecimal c) eqn:E; [|done].
  apply elem_of_strip_by in Hc. apply elem_of_lower_decimal in Hc; [|done].
  apply H in Hc. congruence.
Qed.

Lemma startswith_spec (p s : str) : startswith p s = true ↔ ∃ t, s = p ++ t.
Proof.
  revert s. induction p as [|a p IH]; intros s; simpl.
  - split; eauto.
  - destruct s as [|b s]; [split; [done | by intros [t Ht]]|].
    rewrite andb_true_iff, N.eqb_eq, IH. split.
    + intros [-> [t ->]]. eauto.
    + intros [t [= -> ->]]. eauto.
Qed.

Lemma contains_spec (p s : str) : contains p s = true ↔ ∃ a t, s = a ++ p ++ t.
Proof.
  induction s as [|c s IH]; simpl.
  - rewrite orb_false_r, startswith_spec. split.
    + intros [t Ht]. by exists [], t.
    + intros (a & t & H). destruct a; [by exists t|done].
  - rewrite orb_true_iff, startswith_spec, IH. split.
    + intros [[t Ht]|(a & t & ->)]; [by exists [], t | by exists (c :: a), t].
    + intros (a & t & H). destruct a as [|c' a]; [left; by exists t|].
      injection H as -> ->. right. eauto.
Qed.

Lemma contains_trans (p q s : str) :
  contains p q = true → contains q s = true → contains p s = true.
Proof.
  rewrite !contains_spec. intros (a & t & ->) (a' & t' & ->).
  exists (a' ++ a), (t ++ t'). by rewrite <- !app_assoc.
Qed.

(** ** The derived key *)

(** X2: without a usable manual key, a key that [generar_clave] returns
    is a code of the table, or one of DFL, DL, L, DS followed by one
    decimal digit or more, or N followed by an integer, or UNKNOWN; it is
    made of capital letters A-Z, decimal digits and the minus sign only. *)
Theorem clave_derivada_forma (r : row) (k : str) :
  paso_clave_manual r = None → generar_clave r = Ok k →
  forma_clave_derivada k ∧ Forall (λ c, car_clave c = true) k.
Proof.
  intros Hm Hk. pose proof (generar_clave_sin_manual r k Hm Hk) as Hf.
  split; [done|]. by apply forma_clave_derivada_chars.
Qed.

Lemma clave_derivada_forma_witness :
  forma_clave_derivada (u "L19496") ∧ Forall (λ c, car_clave c = true) (u "L19496").
Proof.
  apply (clave_derivada_forma fila_ley_19496 (u "L19496")); vm_compute; reflexivity.
Defined.

Lemma ldrop_all (p : char → bool) (s : str) : Forall (λ c, p c = true) s → ldrop p s = [].
Proof. induction 1 as [|c s Hc _ IH]; simpl; [done|]. by rewrite Hc. Qed.

Lemma strip_by_all (p : char → bool) (s : str) : Forall (λ c, p c = true) s → strip_by p s = [].
Proof. intros H. unfold strip_by. by rewrite (ldrop_all p s H). Qed.

Lemma generar_clave_sin_celda_manual (r : row) :
  paso_clave_manual r = None →
  generar_clave r = generar_clave (delete "clave_manual" r).
Proof.
  intros Hm. unfold generar_clave. rewrite Hm.
  assert (Hd : paso_clave_manual (delete "clave_manual" r) = None).
  { unfold paso_clave_manual. by rewrite lookup_delete_eq. }
  rewrite Hd. cbv zeta. unfold row_get.
  rewrite !lookup_delete_ne by done.
  unfold desde_dfl, desde_dl, desde_ley, desde_ds, paso_idnorma, row_get.
  by rewrite !lookup_delete_ne by done.
Qed.

(** X14: a manual key cell that is missing or holds whitespace only
    counts as no manual key: the key is the one of the row without the
    cell. *)
Theorem clave_manual_en_blanco (r : row) (v : value) :
  r !! "clave_manual" = Some v →
  isna v = true ∨ Forall (λ c, isspace c = true) (str_of v) →
  generar_clave r = generar_clave (delete "clave_manual" r).
Proof.
  intros Hv Hb. apply generar_clave_sin_celda_manual.
  unfold paso_clave_manual. rewrite Hv.
  destruct (isna v) eqn:Hna; [done|]. destruct Hb as [?|Hb]; [done|].
  simpl. unfold strip. by rewrite (strip_by_all isspace _ Hb).
Qed.

Lemma clave_manual_en_blanco_witness :
  generar_clave fila_manual_en_blanco = generar_clave (delete "clave_manual" fila_manual_en_blanco).
Proof.
  apply (clave_manual_en_blanco fila_manual_en_blanco (VStr (u "   "))).
  - reflexivity.
  - right. by repeat constructor.
Defined.

Lemma es_digito_true (c : char) : atom_match true digit c = isdecimal c.
Proof. simpl. by rewrite orb_false_r. Qed.

(** X13: for a row without manual key or special code whose description
    holds no decimal digit, whose type or description mentions "ley" (so
    also "decreto ley" and "decreto con fuerza de ley") and whose
    norma_numero is truthy, not missing and holds a digit, the key is L
    followed by the digits of norma_numero. *)
Theorem clave_ley_por_norma_numero (r : row) :
  paso_clave_manual r = None →
  paso_codigos (strip (lower (str_of (row_get r "norma" (VStr [])))))
               (strip (lower (str_of (row_get r "norma_tipo" (VStr []))))) = None →
  Forall (λ c, isdecimal c = false) (str_of (row_get r "norma" (VStr []))) →
  contains (u "ley") (strip (lower (str_of (row_get r "norma_tipo" (VStr [])))))
  || contains (u "ley") (strip (lower (str_of (row_get r "norma" (VStr []))))) = true →
  truthy (row_get r "norma_numero" (VStr [])) = true →
  isna (row_get r "norma_numero" (VStr [])) = false →
  Exists (λ c, isdecimal c = true) (str_of (row_get r "norma_numero" (VStr []))) →
  generar_clave r
  = Ok (u "L" ++ List.filter isdecimal (str_of (row_get r "norma_numero" (VStr [])))).
Proof.
  intros Hm Hc Hn Hley Ht Hna Hex.
  apply sin_digitos_strip_lower in Hn.
  unfold generar_clave. rewrite Hm. cbv zeta. rewrite Hc.
  unfold desde_dfl, desde_dl, desde_ley, paso_dfl, paso_dl, paso_ley.
  rewrite (search_sin_digitos true re_dfl _), (search_sin_digitos true re_dl _),
    (search_sin_digitos true re_ley _); try done.
  - rewrite Hley, Ht, Hna, limpiar_numero_filter, Hna. simpl negb. cbn [andb].
    assert (Hne : nonempty (List.filter isdecimal (str_of (row_get r "norma_numero" (VStr [])))) = true).
    { unfold nonempty. rewrite bool_decide_eq_false_2; [done|].
      apply Exists_exists in Hex as (c & Hin & Hd).
      intros Hnil. assert (Hf : In c (List.filter isdecimal (str_of (row_get r "norma_numero" (VStr []))))).
      { apply filter_In. split; [by apply list_elem_of_In|done]. }
      rewrite Hnil in Hf. done. }
    rewrite Hne. by repeat case_match.
  - intros b s w t g H. by apply Matches_re_ley in H.
  - intros b s w t g (n & Hg & Hd & _)%Matches_re_dl.
    destruct (digitos_head n Hd) as (c & n' & -> & Hc'). eauto.
  - intros b s w t g (n & Hg & Hd & _)%Matches_re_dfl.
    destruct (digitos_head n Hd) as (c & n' & -> & Hc'). eauto.
Qed.

Lemma clave_ley_por_norma_numero_witness :
  generar_clave fila_decreto_ley = Ok (u "L3500").
Proof.
  apply (clave_ley_por_norma_numero fila_decreto_ley); try (vm_compute; reflexivity).
  - by repeat constructor.
  - apply Exists_exists. exists 51%N. split; [|reflexivity]. vm_compute. by left.
Defined.

(** ** The normalised part name *)

Lemma star_head (p : char → bool) (s : str) :
  ∃ m, head (star p s) = Some (m, ldrop p s) ∧ s = m ++ ldrop p s.
Proof.
  induction s as [|c s (m & Hm & Hs)]; simpl.
  - by exists [].
  - destruct (p c) eqn:E.
    + exists (c :: m). split; [|by rewrite Hs at 1].
      destruct (star p s) as [|[m' t'] l]; [done|]. simpl in *. by injection Hm as -> ->.
    + by exists [].
Qed.

Lemma sub_from_skip (icase : bool) (r : regex) (repl : str) (b : bool) (m t : str) :
  sub_from icase r repl b (length m) (m ++ t)
  = sub_from icase r repl (b && bool_decide (m = [])) 0 t.
Proof.
  revert b. induction m as [|c m IH]; intros b.
  - simpl app. simpl length. by rewrite andb_true_r.
  - simpl. rewrite IH. simpl. by rewrite andb_false_r.
Qed.

Lemma first_match_espacios (b : bool) (s : str) :
  first_match false re_espacios b s
  = match s with
    | c :: s' =>
        if isspace c
        then (λ mt : str * str, (c :: mt.1, mt.2, (∅ : groups))) <$> head (star (atom_match false space) s')
        else None
    | [] => None
    end.
Proof.
  unfold first_match, re_espacios. simpl. destruct s as [|c s]; [done|].
  rewrite orb_false_r. destruct (isspace c); [|done].
  by destruct (star _ s).
Qed.

Lemma es_espacio_spec (c : char) : atom_match false space c = isspace c.
Proof. simpl. by rewrite orb_false_r. Qed.

Lemma ldrop_ext (p q : char → bool) (s : str) : (∀ c, p c = q c) → ldrop p s = ldrop q s.
Proof. intros H. induction s as [|c s IH]; simpl; [done|]. by rewrite H, IH. Qed.

Lemma espacios_simples_sub (n : nat) :
  ∀ (b : bool) (s : str), length s ≤ n →
    espacios_simples (sub_from false re_espacios (u " ") b 0 s) = true
    ∧ (∀ c t, sub_from false re_espacios (u " ") b 0 s = c :: t → isspace c = true →
       ∃ c0 s0, s = c0 :: s0 ∧ isspace c0 = true).
Proof.
  induction n as [|n IH]; intros b s Hn.
  - destruct s; [|simpl in Hn; lia]. cbn [sub_from]. rewrite first_match_espacios. done.
  - destruct s as [|c s]; [cbn [sub_from]; by rewrite first_match_espacios|].
    simpl in Hn. cbn [sub_from]. rewrite first_match_espacios.
    destruct (isspace c) eqn:Ec.
    + destruct (star_head (atom_match false space) s) as (m & Hh & Hs).
      rewrite Hh. cbn [fmap option_fmap option_map fst snd length].
      rewrite Hs at 1. rewrite sub_from_skip.
      destruct (IH (false && bool_decide (m = [])) (ldrop (atom_match false space) s)) as [H1 H2].
      { rewrite Hs in Hn. rewrite length_app in Hn. lia. }
      split; [|eauto].
      set (X := sub_from _ _ _ _ _ _) in *.
      change (espacios_simples (32%N :: X) = true). cbn [espacios_simples].
      rewrite H1, andb_true_r.
      apply orb_true_iff. right. simpl.
      destruct X as [|c' t'] eqn:Es; [done|].
      destruct (isspace c') eqn:Ec'; [|done].
      destruct (H2 c' t' eq_refl Ec') as (c0 & s0 & Hl & Hc0).
      apply ldrop_head in Hl. rewrite es_espacio_spec in Hl. congruence.
    + destruct (IH false s) as [H1 H2]; [lia|].
      split.
      * cbn [espacios_simples]. by rewrite Ec, H1.
      * intros c' t' [= <- _] ?. congruence.
Qed.

Lemma espacios_simples_ldrop (p : char → bool) (s : str) :
  espacios_simples s = true → espacios_simples (ldrop p s) = true.
Proof.
  induction s as [|c s IH]; [done|]. intros H. simpl.
  destruct (p c); [|done]. apply IH. simpl in H. by apply andb_true_iff in H as [_ H].
Qed.

Lemma espacios_simples_prefijo (a b : str) :
  espacios_simples (a ++ b) = true → espacios_simples a = true.
Proof.
  induction a as [|c a IH]; [done|]. simpl.
  rewrite !andb_true_iff. intros [H1 H2]. split; [|by apply IH].
  destruct (negb (isspace c)); [done|]. simpl in *.
  apply andb_true_iff in H1 as [-> H1]. simpl. by destruct a.
Qed.

Lemma espacios_simples_strip (s : str) :
  espacios_simples s = true → espacios_simples (strip s) = true.
Proof.
  intros H. unfold strip, strip_by.
  apply (espacios_simples_ldrop isspace) in H.
  destruct (ldrop_split isspace (rev (ldrop isspace s))) as (d & Hd & _).
  apply (f_equal (@rev _)) in Hd. rewrite rev_involutive, rev_app_distr in Hd.
  rewrite Hd in H. by apply espacios_simples_prefijo in H.
Qed.

Lemma strip_idemp (s : str) : strip (strip s) = strip s.
Proof.
  apply strip_by_fix.
  - intros c t. apply strip_by_head.
  - intros t c. apply strip_by_last.
Qed.

Lemma elem_of_sub_from (icase : bool) (r : regex) (repl : str) (c : char) (n : nat) :
  ∀ (s : str) (b : bool) (k : nat), length s ≤ n →
    c ∈ sub_from icase r repl b k s → c ∈ s ∨ c ∈ repl.
Proof.
  induction n as [|n IH]; intros s b k Hn.
  - destruct s; [|simpl in Hn; lia]. destruct k; simpl; [|by intros ?%elem_of_nil].
    destruct (first_match _ _ _ _); [by right | by intros ?%elem_of_nil].
  - destruct s as [|a s].
    { destruct k; simpl; [|by intros ?%elem_of_nil].
      destruct (first_match _ _ _ _); [by right | by intros ?%elem_of_nil]. }
    simpl in Hn. assert (Hs : length s ≤ n) by lia.
    assert (Hrec : ∀ b k, c ∈ sub_from icase r repl b k s → c ∈ a :: s ∨ c ∈ repl).
    { intros b' k' H. destruct (IH s b' k' Hs H); [left; by right | by right]. }
    destruct k; cbn [sub_from]; [|apply Hrec].
    destruct (first_match _ _ _ _) as [x|].
    + destruct (length x.1.1).
      * rewrite elem_of_app, elem_of_cons. intros [?|[->|H]]; [by right | left; by left | by apply Hrec in H].
      * rewrite elem_of_app. intros [?|H]; [by right | by apply Hrec in H].
    + rewrite elem_of_cons. intros [->|H]; [left; by left | by apply Hrec in H].
Qed.

Lemma lower_char_idemp (c : char) : lower_char (lower_char c) = lower_char c.
Proof.
  unfold lower_char, between.
  repeat case_match; try done; nbool; lia.
Qed.

Lemma lower_fix (s : str) : Forall (λ c, lower_char c = c) s → lower s = s.
Proof.
  unfold lower. induction 1 as [|c l Hc _ IH]; [done|].
  rewrite fmap_cons. by rewrite Hc, IH.
Qed.

(** X7: in the text [normalizar_nombreparte] returns, every whitespace
    character is a plain space followed by a character that is not
    whitespace, and the text neither begins nor ends with whitespace. *)
Theorem normalizar_nombreparte_espacios (texto : value) :
  espacios_simples (normalizar_nombreparte texto) = true
  ∧ strip (normalizar_nombreparte texto) = normalizar_nombreparte texto.
Proof.
  unfold normalizar_nombreparte. destruct (isna texto); [done|]. split.
  - apply espacios_simples_strip. unfold re_sub. by eapply espacios_simples_sub.
  - apply strip_idemp.
Qed.

Lemma re_sub_minusculas (r : regex) (repl s : str) :
  Forall (λ c, lower_char c = c) repl → Forall (λ c, lower_char c = c) s →
  Forall (λ c, lower_char c = c) (re_sub false r repl s).
Proof.
  intros Hr Hs. apply Forall_forall. intros c Hc.
  apply (elem_of_sub_from _ _ _ _ (length s)) in Hc; [|done].
  rewrite Forall_forall in Hr, Hs. destruct Hc; auto.
Qed.

(** X8: the text [normalizar_nombreparte] returns is in lower case. *)
Theorem normalizar_nombreparte_minusculas (texto : value) :
  lower (normalizar_nombreparte texto) = normalizar_nombreparte texto.
Proof.
  unfold normalizar_nombreparte. destruct (isna texto); [done|].
  apply lower_fix, Forall_forall. intros c Hc%elem_of_strip_by. revert c Hc.
  apply Forall_forall. repeat apply re_sub_minusculas; try (by repeat constructor).
  apply Forall_forall. intros c Hc%elem_of_strip_by.
  apply list_elem_of_fmap in Hc as (c' & -> & _). apply lower_char_idemp.
Qed.

(** *** A text that begins with "art" *)

Lemma ldrop_app_keep (p : char → bool) (l1 l2 : str) :
  Forall (no_es p) l2 → ldrop p (l1 ++ l2) = ldrop p l1 ++ l2.
Proof.
  intros H. induction l1 as [|c l1 IH]; simpl.
  - by apply ldrop_none.
  - by destruct (p c).
Qed.

Lemma strip_by_prefijo (p : char → bool) (w x : str) :
  w ≠ [] → Forall (no_es p) w →
  strip_by p (w ++ x) = w ++ rev (ldrop p (rev x)).
Proof.
  intros Hne Hw. unfold strip_by.
  assert (H1 : ldrop p (w ++ x) = w ++ x).
  { destruct w as [|c w]; [done|]. simpl. inversion Hw as [|? ? Hc _]. by rewrite Hc. }
  rewrite H1, rev_app_distr, ldrop_app_keep.
  - by rewrite rev_app_distr, rev_involutive.
  - apply Forall_forall. intros c Hc. apply (proj1 (elem_of_rev c w)) in Hc.
    rewrite Forall_forall in Hw. by apply Hw.
Qed.

Lemma rstrip_cons (p : char → bool) (c : char) (x : str) :
  rev (ldrop p (rev (c :: x))) = [] ∨ ∃ z, rev (ldrop p (rev (c :: x))) = c :: z.
Proof.
  destruct (ldrop_split p (rev (c :: x))) as (d & Hd & _).
  apply (f_equal (@rev _)) in Hd. rewrite rev_involutive, rev_app_distr in Hd.
  destruct (rev (ldrop p (rev (c :: x)))) as [|a k]; [by left|].
  right. injection Hd as -> _. eauto.
Qed.

Lemma Matches_re_art_inicial (b : bool) (s : str) (g0 : groups) (w t : str) (g : groups) :
  Matches false re_art_inicial b s g0 w t g → ∃ c w', w = c :: w'.
Proof.
  cbv [re_art_inicial seqs lits lit]. intros H. inv_matches; by eexists _, _.
Qed.

Lemma re_art_inicial_Matches (resto : str) :
  Matches false re_art_inicial true (u "art" ++ resto) ∅ (u "art") resto ∅.
Proof.
  cbv [re_art_inicial seqs lits lit].
  eapply (M_Seq _ _ _ _ _ _ [] _ _ (u "art")); [constructor|].
  rewrite <- (app_nil_r (u "art")).
  eapply (M_Seq _ _ _ _ _ _ (u "art") resto ∅ []).
  - eapply (M_Seq _ _ _ _ _ _ [97%N] _ _ [114%N; 116%N]); [by constructor|].
    eapply (M_Seq _ _ _ _ _ _ [114%N] _ _ [116%N]); by constructor.
  - eapply (M_Seq _ _ _ _ _ _ [] _ _ []); [apply M_Opt_none|].
    apply (M_Star _ _ _ [] resto). constructor.
Qed.

Lemma sub_articulo_art (resto : str) :
  ∃ resto', re_sub false re_articulo (u "articulo") (u "art" ++ resto) = u "art" ++ resto'.
Proof.
  unfold re_sub. change (u "art" ++ resto) with (97%N :: 114%N :: 116%N :: resto).
  cbn [sub_from].
  destruct (first_match false re_articulo true _) as [x|].
  - destruct (length x.1.1);
      match goal with |- ∃ r, u "articulo" ++ ?Y = _ => exists (u "iculo" ++ Y) end;
      reflexivity.
  - assert (H1 : ∀ b s, first_match false re_articulo b (114%N :: s) = None) by reflexivity.
    assert (H2 : ∀ b s, first_match false re_articulo b (116%N :: s) = None) by reflexivity.
    rewrite H1. cbn [sub_from]. rewrite H2. eauto.
Qed.

Lemma sub_art_inicial_art (resto : str) :
  ∃ resto', re_sub false re_art_inicial (u "articulo ") (u "art" ++ resto)
            = u "articulo " ++ resto'.
Proof.
  unfold re_sub.
  pose proof (re_art_inicial_Matches resto) as Hm. apply run_Matches in Hm.
  change (u "art" ++ resto) with (97%N :: 114%N :: 116%N :: resto) in *.
  cbn [sub_from]. unfold first_match.
  destruct (run false re_art_inicial true _ ∅) as [|x l] eqn:Er; [by apply elem_of_nil in Hm|].
  assert (Hx : x ∈ run false re_art_inicial true (97%N :: 114%N :: 116%N :: resto) ∅)
    by (rewrite Er; by left).
  destruct x as [[w t] g]. apply run_Matches, Matches_re_art_inicial in Hx as (c & w' & ->).
  simpl. eauto.
Qed.

Lemma sub_espacios_no_espacio (b : bool) (c : char) (s : str) :
  isspace c = false →
  sub_from false re_espacios (u " ") b 0 (c :: s)
  = c :: sub_from false re_espacios (u " ") false 0 s.
Proof. intros Hc. cbn [sub_from]. by rewrite first_match_espacios, Hc. Qed.

Lemma sub_espacios_espacio (b : bool) (c : char) (s : str) :
  isspace c = true →
  ∃ x, sub_from false re_espacios (u " ") b 0 (c :: s) = 32%N :: x.
Proof.
  intros Hc. cbn [sub_from]. rewrite first_match_espacios, Hc.
  destruct (star_head (atom_match false space) s) as (m & Hh & _). rewrite Hh.
  simpl. eauto.
Qed.

Lemma sub_espacios_articulo (resto : str) :
  ∃ x, re_sub false re_espacios (u " ") (u "articulo " ++ resto) = u "articulo" ++ 32%N :: x.
Proof.
  unfold re_sub.
  change (u "articulo " ++ resto)
    with (97%N :: 114%N :: 116%N :: 105%N :: 99%N :: 117%N :: 108%N :: 111%N :: 32%N :: resto).
  rewrite !sub_espacios_no_espacio by (vm_compute; reflexivity).
  destruct (sub_espacios_espacio false 32 resto) as [x ->]; [vm_compute; reflexivity|].
  by exists x.
Qed.

(** X16: a text that begins with "art" once lower-cased and trimmed, be it
    the word "articulo", its abbreviation or another word, is normalised
    to "articulo", alone or followed by a space and more text. *)
Theorem normalizar_nombreparte_prefijo_art (texto : value) (resto : str) :
  isna texto = false → strip (lower (str_of texto)) = u "art" ++ resto →
  normalizar_nombreparte texto = u "articulo"
  ∨ ∃ resto', normalizar_nombreparte texto = u "articulo " ++ resto'.
Proof.
  intros Hna Hs. unfold normalizar_nombreparte. rewrite Hna, Hs.
  destruct (sub_articulo_art resto) as [r1 ->].
  destruct (sub_art_inicial_art r1) as [r2 ->].
  destruct (sub_espacios_articulo r2) as [x ->].
  unfold strip. rewrite strip_by_prefijo; [|done|by repeat constructor].
  destruct (rstrip_cons isspace 32 x) as [->|[z ->]].
  - left. reflexivity.
  - right. exists z. reflexivity.
Qed.

Lemma normalizar_nombreparte_prefijo_art_witness :
  normalizar_nombreparte (VStr (u " Arte moderno")) = u "articulo"
  ∨ ∃ resto', normalizar_nombreparte (VStr (u " Arte moderno")) = u "articulo " ++ resto'.
Proof.
  apply (normalizar_nombreparte_prefijo_art (VStr (u " Arte moderno")) (u "e moderno"));
    reflexivity.
Defined.

(** ** The derived columns, row by row *)

Lemma apply_rows_length {A B : Type} (f : A → result B) (l : list A) (ys : list B) :
  apply_rows f l = Ok ys → length ys = length l.
Proof.
  revert ys. induction l as [|a l IH]; intros ys; simpl; [by intros [= <-]|].
  destruct (f a); [|done]. destruct (apply_rows f l); [|done].
  intros [= <-]. simpl. by rewrite (IH _ eq_refl).
Qed.

Lemma apply_rows_Ok {A B : Type} (f : A → result B) (l : list A) :
  (∃ ys, apply_rows f l = Ok ys) ↔ Forall (λ x, ∃ y, f x = Ok y) l.
Proof.
  induction l as [|a l IH]; simpl.
  - split; [done | eauto].
  - rewrite Forall_cons, <- IH. destruct (f a) as [y|e].
    + destruct (apply_rows f l) as [ys|e'].
      * split; eauto.
      * split; [by intros [? ?] | by intros [_ [? ?]]].
    + split; [by intros [? ?] | by intros [[? ?] _]].
Qed.

Lemma set_column_length (c : string) (vals : list value) (df : DataFrame) :
  length vals = length (rows df) →
  length (rows (set_column c vals df)) = length (rows df).
Proof. intros H. simpl. rewrite length_zip_with. lia. Qed.

Lemma column_length (c : string) (df : DataFrame) : length (column c df) = length (rows df).
Proof. unfold column. by rewrite length_fmap. Qed.

Lemma fillna_length (s o : list value) : length o = length s → length (fillna s o) = length s.
Proof. intros H. unfold fillna. rewrite length_zip_with. lia. Qed.

Lemma columna_numero_articulo_length (arts : list value) (df : DataFrame) :
  length arts = length (rows df) →
  length (rows (columna_numero_articulo arts df)) = length (rows df).
Proof.
  intros H. unfold columna_numero_articulo. case_match; apply set_column_length; [done|].
  rewrite fillna_length; by rewrite column_length.
Qed.

Lemma columna_nombreparte_normalizado_length (df : DataFrame) :
  length (rows (columna_nombreparte_normalizado df)) = length (rows df).
Proof.
  unfold columna_nombreparte_normalizado. case_match; [|done].
  apply set_column_length. by rewrite length_fmap, column_length.
Qed.

Lemma columna_url_norma_pdf_length (df : DataFrame) :
  length (rows (columna_url_norma_pdf df)) = length (rows df).
Proof.
  unfold columna_url_norma_pdf. case_match; [|done].
  apply set_column_length. by rewrite length_fmap.
Qed.

Lemma columna_numero_articulo_fila (arts : list value) (df : DataFrame) (i : nat) (r : row) (a : value) :
  rows df !! i = Some r → arts !! i = Some a →
  rows (columna_numero_articulo arts df) !! i
  = Some (<["numero_articulo" :=
             if bool_decide ("numero_articulo" ∈ columns df)
             then (if isna (row_get r "numero_articulo" VNaN) then a
                   else row_get r "numero_articulo" VNaN)
             else a]> r).
Proof.
  intros Hr Ha. unfold columna_numero_articulo.
  destruct (bool_decide ("numero_articulo" ∈ columns df)); simpl negb; cbv iota.
  - apply set_column_lookup; [done|]. unfold fillna.
    by rewrite lookup_zip_with, (column_lookup _ _ _ _ Hr); simpl; rewrite Ha.
  - by apply set_column_lookup.
Qed.

Lemma columna_nombreparte_normalizado_fila (df : DataFrame) (i : nat) (r : row) :
  rows df !! i = Some r →
  rows (columna_nombreparte_normalizado df) !! i
  = Some (if bool_decide ("nombreparte" ∈ columns df)
          then <["nombreparte_normalizado" :=
                  VStr (normalizar_nombreparte (row_get r "nombreparte" VNaN))]> r
          else r).
Proof.
  intros Hr. unfold columna_nombreparte_normalizado. case_match; [|done].
  apply set_column_lookup; [done|]. by rewrite list_lookup_fmap, (column_lookup _ _ _ _ Hr).
Qed.

Lemma columna_url_norma_pdf_fila (df : DataFrame) (i : nat) (r : row) :
  rows df !! i = Some r →
  rows (columna_url_norma_pdf df) !! i
  = Some (if bool_decide ("url_norma_pdf" ∈ columns df) then r
          else <["url_norma_pdf" := VNone]> r).
Proof.
  intros Hr. unfold columna_url_norma_pdf.
  destruct (bool_decide ("url_norma_pdf" ∈ columns df)); simpl negb; cbv iota; [done|].
  apply set_column_lookup; [done|]. by rewrite list_lookup_fmap, Hr.
Qed.

Lemma columns_columna_numero_articulo (arts : list value) (df : DataFrame) :
  columns (columna_numero_articulo arts df)
  = if bool_decide ("numero_articulo" ∈ columns df) then columns df
    else columns df ++ ["numero_articulo"].
Proof.
  unfold columna_numero_articulo.
  destruct (bool_decide ("numero_articulo" ∈ columns df)) eqn:E; simpl; by rewrite E.
Qed.

Lemma columns_columna_nombreparte_normalizado (df : DataFrame) :
  columns (columna_nombreparte_normalizado df)
  = if bool_decide ("nombreparte" ∈ columns df)
    then (if bool_decide ("nombreparte_normalizado" ∈ columns df) then columns df
          else columns df ++ ["nombreparte_normalizado"])
    else columns df.
Proof. unfold columna_nombreparte_normalizado. by case_match. Qed.

Lemma columns_columna_url_norma_pdf (df : DataFrame) :
  columns (columna_url_norma_pdf df)
  = if bool_decide ("url_norma_pdf" ∈ columns df) then columns df
    else columns df ++ ["url_norma_pdf"].
Proof.
  unfold columna_url_norma_pdf.
  destruct (bool_decide ("url_norma_pdf" ∈ columns df)) eqn:E; simpl; [done|by rewrite E].
Qed.

(** The frame of [derivar_columnas], step by step. *)
Lemma derivar_columnas_pasos (df df' : DataFrame) :
  derivar_columnas df = Ok df' →
  ∃ claves,
    apply_rows generar_clave (rows df) = Ok claves
    ∧ rows df ≠ []
    ∧ let df1 := set_column "clave" (VStr <$> claves) df in
      let pares := separar_clave_y_articulo <$> column "clave" df1 in
      let df2 := set_column "clave" pares.*1 df1 in
      df' = columna_url_norma_pdf
              (columna_nombreparte_normalizado
                 (columna_numero_articulo pares.*2 df2)).
Proof.
  unfold derivar_columnas.
  destruct (apply_rows generar_clave (rows df)) as [claves|] eqn:Ha; [|done].
  cbv zeta. intros Hd. exists claves. split; [done|].
  destruct (rows df) as [|r rs] eqn:Er.
  - simpl in Ha. injection Ha as <-. unfold column in Hd. simpl in Hd.
    rewrite Er in Hd. done.
  - split; [done|].
    destruct (separar_clave_y_articulo <$> _) eqn:Ep; [done|]. by injection Hd as <-.
Qed.

Lemma derivar_columnas_fila (df df' : DataFrame) (i : nat) (r : row) :
  derivar_columnas df = Ok df' → rows df !! i = Some r →
  ∃ clave,
    generar_clave r = Ok clave
    ∧ rows df' !! i
      = Some (let par := separar_clave_y_articulo (VStr clave) in
              let r2 := <["clave" := par.1]> (<["clave" := VStr clave]> r) in
              let r3 := <["numero_articulo" :=
                           if bool_decide ("numero_articulo" ∈ columns df)
                           then (if isna (row_get r "numero_articulo" VNaN) then par.2
                                 else row_get r "numero_articulo" VNaN)
                           else par.2]> r2 in
              let r4 := if bool_decide ("nombreparte" ∈ columns df)
                        then <["nombreparte_normalizado" :=
                                VStr (normalizar_nombreparte (row_get r "nombreparte" VNaN))]> r3
                        else r3 in
              if bool_decide ("url_norma_pdf" ∈ columns df) then r4
              else <["url_norma_pdf" := VNone]> r4).
Proof.
  intros (claves & Ha & _ & Hd)%derivar_columnas_pasos Hr. cbv zeta in Hd.
  destruct (apply_rows_lookup _ _ _ _ _ Ha Hr) as (clave & Hk & Hci).
  exists clave. split; [done|]. cbv zeta.
  set (df1 := set_column "clave" (VStr <$> claves) df) in *.
  assert (H1 : rows df1 !! i = Some (<["clave" := VStr clave]> r)).
  { apply set_column_lookup; [done|]. by rewrite list_lookup_fmap, Hci. }
  set (pares := separar_clave_y_articulo <$> column "clave" df1) in *.
  assert (Hp : pares !! i = Some (separar_clave_y_articulo (VStr clave))).
  { unfold pares. rewrite list_lookup_fmap, (column_lookup _ _ _ _ H1). simpl.
    unfold row_get. by rewrite lookup_insert_eq. }
  set (df2 := set_column "clave" pares.*1 df1) in *.
  assert (H2 : rows df2 !! i = Some (<["clave" := (separar_clave_y_articulo (VStr clave)).1]> (<["clave" := VStr clave]> r))).
  { apply set_column_lookup; [done|]. by rewrite list_lookup_fmap, Hp. }
  assert (Hp2 : pares.*2 !! i = Some (separar_clave_y_articulo (VStr clave)).2).
  { by rewrite list_lookup_fmap, Hp. }
  assert (Hc2 : ∀ c, c ≠ "clave" → bool_decide (c ∈ columns df2) = bool_decide (c ∈ columns df)).
  { intros c Hc. apply bool_decide_ext. unfold df2, df1. by rewrite !columns_set_column. }
  assert (Hc3 : ∀ c, c ≠ "clave" → c ≠ "numero_articulo" →
                bool_decide (c ∈ columns (columna_numero_articulo pares.*2 df2))
                = bool_decide (c ∈ columns df)).
  { intros c Hc Hn. rewrite <- (Hc2 c Hc). apply bool_decide_ext.
    rewrite columns_columna_numero_articulo.
    destruct (bool_decide ("numero_articulo" ∈ columns df2)); [done|].
    rewrite elem_of_app, list_elem_of_singleton.
    split; [intros [?|?]; [done|congruence] | by left]. }
  assert (Hc4 : bool_decide ("url_norma_pdf" ∈ columns (columna_nombreparte_normalizado
                                 (columna_numero_articulo pares.*2 df2)))
                = bool_decide ("url_norma_pdf" ∈ columns df)).
  { rewrite <- (Hc3 "url_norma_pdf") by done. apply bool_decide_ext.
    rewrite columns_columna_nombreparte_normalizado.
    destruct (bool_decide ("nombreparte" ∈ _)); [|done].
    destruct (bool_decide ("nombreparte_normalizado" ∈ _)); [done|].
    rewrite elem_of_app, list_elem_of_singleton.
    split; [intros [?|?]; [done|congruence] | by left]. }
  pose proof (columna_numero_articulo_fila _ _ _ _ _ H2 Hp2) as H3.
  pose proof (columna_nombreparte_normalizado_fila _ _ _ H3) as H4.
  pose proof (columna_url_norma_pdf_fila _ _ _ H4) as H5.
  rewrite Hd, H5. f_equal.
  rewrite Hc4, (Hc3 "nombreparte") by done. rewrite (Hc2 "numero_articulo") by done.
  unfold row_get. rewrite !lookup_insert_ne by done. done.
Qed.

Lemma derivar_columnas_length (df df' : DataFrame) :
  derivar_columnas df = Ok df' → length (rows df') = length (rows df).
Proof.
  intros (claves & Ha & _ & Hd)%derivar_columnas_pasos. cbv zeta in Hd.
  apply apply_rows_length in Ha.
  set (df1 := set_column "clave" (VStr <$> claves) df) in *.
  assert (L1 : length (rows df1) = length (rows df)).
  { apply set_column_length. by rewrite length_fmap. }
  set (pares := separar_clave_y_articulo <$> column "clave" df1) in *.
  assert (Lp : length pares = length (rows df)).
  { unfold pares. by rewrite length_fmap, column_length. }
  set (df2 := set_column "clave" pares.*1 df1) in *.
  assert (L2 : length (rows df2) = length (rows df)).
  { unfold df2. rewrite set_column_length; [done|]. rewrite length_fmap. congruence. }
  rewrite Hd, columna_url_norma_pdf_length, columna_nombreparte_normalizado_length,
    columna_numero_articulo_length; [done|].
  rewrite length_fmap. congruence.
Qed.

(** X9: the derived frame has as many rows as the sheet, in the same
    order, and every cell outside the four derived columns (clave,
    numero_articulo, nombreparte_normalizado, url_norma_pdf) is the
    sheet's. *)
Theorem derivar_columnas_conserva (df df' : DataFrame) :
  derivar_columnas df = Ok df' →
  length (rows df') = length (rows df)
  ∧ ∀ i r, rows df !! i = Some r →
      ∃ r', rows df' !! i = Some r'
            ∧ ∀ c, c ∉ columnas_derivadas → r' !! c = r !! c.
Proof.
  intros Hd. split; [by apply derivar_columnas_length|].
  intros i r Hr. destruct (derivar_columnas_fila df df' i r Hd Hr) as (clave & _ & Hi).
  eexists. split; [exact Hi|]. intros c Hc. cbv zeta.
  unfold columnas_derivadas in Hc.
  rewrite !not_elem_of_cons in Hc. destruct Hc as (? & ? & ? & ? & _).
  repeat case_match; by rewrite !lookup_insert_ne by done.
Qed.

Lemma derivar_columnas_conserva_witness :
  ∃ df', derivar_columnas hoja_sin_numero = Ok df'
         ∧ length (rows df') = 2
         ∧ ∃ r', rows df' !! 1 = Some r'
                 ∧ r' !! "nombreparte" = Some (VStr (u "Inciso primero")).
Proof.
  destruct (derivar_columnas hoja_sin_numero) as [df'|e] eqn:Hd; [|by vm_compute in Hd].
  destruct (derivar_columnas_conserva hoja_sin_numero df' Hd) as [Hl Hf].
  destruct (Hf 1 (fila [("clave_manual", VStr (u "CTRIB.Art31"));
                        ("nombreparte", VStr (u "Inciso primero"))]) eq_refl)
    as (r' & Hr & Hc).
  exists df'. split; [done|]. split; [exact Hl|]. exists r'. split; [done|].
  rewrite (Hc "nombreparte"); [reflexivity|].
  unfold columnas_derivadas. rewrite !not_elem_of_cons. repeat split; try done.
  apply not_elem_of_nil.
Defined.

Lemma elem_of_columns_set_column (c x : string) (vals : list value) (df : DataFrame) :
  x ∈ columns (set_column c vals df) ↔ x ∈ columns df ∨ x = c.
Proof.
  simpl. case_bool_decide.
  - split; [by left | intros [?| ->]; done].
  - by rewrite elem_of_app, list_elem_of_singleton.
Qed.

Lemma elem_of_columns_numero_articulo (x : string) (arts : list value) (df : DataFrame) :
  x ∈ columns (columna_numero_articulo arts df) ↔ x ∈ columns df ∨ x = "numero_articulo".
Proof.
  rewrite columns_columna_numero_articulo. case_bool_decide.
  - split; [by left | intros [?| ->]; done].
  - by rewrite elem_of_app, list_elem_of_singleton.
Qed.

Lemma elem_of_columns_nombreparte_normalizado (x : string) (df : DataFrame) :
  x ∈ columns (columna_nombreparte_normalizado df)
  ↔ x ∈ columns df ∨ (x = "nombreparte_normalizado" ∧ "nombreparte" ∈ columns df).
Proof.
  rewrite columns_columna_nombreparte_normalizado.
  destruct (decide ("nombreparte" ∈ columns df)) as [Hn|Hn].
  - rewrite (bool_decide_eq_true_2 _ Hn).
    destruct (decide ("nombreparte_normalizado" ∈ columns df)) as [Hnn|Hnn].
    + rewrite (bool_decide_eq_true_2 _ Hnn). split; [by left | intros [?|[-> _]]; done].
    + rewrite (bool_decide_eq_false_2 _ Hnn), elem_of_app, list_elem_of_singleton.
      split; [intros [?|?]; auto | intros [?|[? _]]; auto].
  - rewrite (bool_decide_eq_false_2 _ Hn). split; [by left | intros [?|[_ ?]]; done].
Qed.

Lemma elem_of_columns_url_norma_pdf (x : string) (df : DataFrame) :
  x ∈ columns (columna_url_norma_pdf df) ↔ x ∈ columns df ∨ x = "url_norma_pdf".
Proof.
  rewrite columns_columna_url_norma_pdf. case_bool_decide.
  - split; [by left | intros [?| ->]; done].
  - by rewrite elem_of_app, list_elem_of_singleton.
Qed.

Lemma columns_set_column_app (c : string) (vals : list value) (df : DataFrame) :
  ∃ n, columns (set_column c vals df) = columns df ++ n.
Proof. simpl. case_bool_decide; [exists []; by rewrite app_nil_r | by eexists]. Qed.

Lemma columns_derivadas_app (arts : list value) (df : DataFrame) :
  ∃ n, columns (columna_url_norma_pdf
                  (columna_nombreparte_normalizado (columna_numero_articulo arts df)))
       = columns df ++ n.
Proof.
  rewrite columns_columna_url_norma_pdf, columns_columna_nombreparte_normalizado,
    columns_columna_numero_articulo.
  repeat case_bool_decide; rewrite <- ?app_assoc; try (by eexists); exists []; by rewrite app_nil_r.
Qed.

(** X10: the derived frame keeps the sheet's columns in place and adds
    new ones after them; its columns are the sheet's, clave,
    numero_articulo and url_norma_pdf, and nombreparte_normalizado exactly
    when the sheet has it or has nombreparte. *)
Theorem derivar_columnas_columnas (df df' : DataFrame) :
  derivar_columnas df = Ok df' →
  (∃ nuevas, columns df' = columns df ++ nuevas)
  ∧ ∀ c, c ∈ columns df' ↔
         c ∈ columns df ∨ c = "clave" ∨ c = "numero_articulo" ∨ c = "url_norma_pdf"
         ∨ (c = "nombreparte_normalizado" ∧ "nombreparte" ∈ columns df).
Proof.
  intros (claves & _ & _ & Hd)%derivar_columnas_pasos. cbv zeta in Hd. subst df'.
  split.
  - destruct (columns_derivadas_app
                (separar_clave_y_articulo <$> column "clave" (set_column "clave" (VStr <$> claves) df)).*2
                (set_column "clave"
                   (separar_clave_y_articulo <$> column "clave" (set_column "clave" (VStr <$> claves) df)).*1
                   (set_column "clave" (VStr <$> claves) df))) as (n3 & ->).
    destruct (columns_set_column_app "clave"
                (separar_clave_y_articulo <$> column "clave" (set_column "clave" (VStr <$> claves) df)).*1
                (set_column "clave" (VStr <$> claves) df)) as (n2 & ->).
    destruct (columns_set_column_app "clave" (VStr <$> claves) df) as (n1 & ->).
    exists (n1 ++ n2 ++ n3). by rewrite <- !app_assoc.
  - intros c.
    rewrite elem_of_columns_url_norma_pdf, elem_of_columns_nombreparte_normalizado,
      !elem_of_columns_numero_articulo, !elem_of_columns_set_column.
    split.
    + intros [[[[[?|?]|?]|?]|[? [[[?|?]|?]|?]]]|?]; auto 10; discriminate.
    + intros [?|[?|[?|[?|[? ?]]]]]; auto 10.
Qed.

Lemma derivar_columnas_columnas_witness :
  ∃ df', derivar_columnas hoja_sin_numero = Ok df'
         ∧ "nombreparte_normalizado" ∈ columns df'.
Proof.
  destruct (derivar_columnas hoja_sin_numero) as [df'|e] eqn:Hd; [|by vm_compute in Hd].
  destruct (derivar_columnas_columnas hoja_sin_numero df' Hd) as [_ Hc].
  exists df'. split; [done|]. apply Hc. do 4 right. split; [done|].
  right. by left.
Defined.

Lemma apply_rows_Raise_primera {A B : Type} (f : A → result B) (l : list A) (e : exn) :
  apply_rows f l = Raise e →
  ∃ i x, l !! i = Some x ∧ f x = Raise e
         ∧ ∀ j y, j < i → l !! j = Some y → ∃ z, f y = Ok z.
Proof.
  induction l as [|a l IH]; simpl; [done|].
  destruct (f a) as [y|e'] eqn:Ea.
  - destruct (apply_rows f l) as [ys|e']; [done|]. intros [= ->].
    destruct (IH eq_refl) as (i & x & Hi & Hx & Hj).
    exists (S i), x. split; [done|]. split; [done|].
    intros [|j] y' Hlt; simpl; [intros [= <-]; eauto|].
    apply Hj. lia.
  - intros [= ->]. exists 0, a. split; [done|]. split; [done|]. intros j y Hlt. lia.
Qed.

Lemma derivar_columnas_Ok (df : DataFrame) (claves : list str) :
  apply_rows generar_clave (rows df) = Ok claves → rows df ≠ [] →
  ∃ df', derivar_columnas df = Ok df'.
Proof.
  intros Ha Hne. unfold derivar_columnas. rewrite Ha. cbv zeta.
  destruct (rows df) as [|r rs] eqn:Er; [done|].
  simpl in Ha. destruct (generar_clave r) as [k|]; [|done].
  destruct (apply_rows generar_clave rs) as [ks|]; [|done]. injection Ha as <-.
  unfold column. simpl. rewrite Er. simpl. eauto.
Qed.

(** X11: deriving the columns either succeeds, and then the sheet has a
    row and [generar_clave] returns a key on every row; or the sheet has
    no row and it raises ValueError; or it raises what [generar_clave]
    raises on the first row on which it raises. *)
Theorem derivar_columnas_falla (df : DataFrame) :
  ((∃ df', derivar_columnas df = Ok df')
   ∧ rows df ≠ [] ∧ Forall (λ r, ∃ k, generar_clave r = Ok k) (rows df))
  ∨ (derivar_columnas df = Raise ValueError ∧ rows df = [])
  ∨ (∃ i r e,
       derivar_columnas df = Raise e
       ∧ rows df !! i = Some r ∧ generar_clave r = Raise e
       ∧ ∀ j r', j < i → rows df !! j = Some r' → ∃ k, generar_clave r' = Ok k).
Proof.
  destruct (apply_rows generar_clave (rows df)) as [claves|e] eqn:Ha.
  - destruct (rows df) as [|r rs] eqn:Er.
    + right; left. split; [|done]. unfold derivar_columnas, column. simpl. rewrite Er. simpl. done.
    + left. split; [|split; [done|]].
      * apply (derivar_columnas_Ok df claves); rewrite Er; done.
      * apply apply_rows_Ok. eauto.
  - right; right. destruct (apply_rows_Raise_primera _ _ _ Ha) as (i & r & Hi & Hr & Hj).
    exists i, r, e. split; [|done].
    unfold derivar_columnas. by rewrite Ha.
Qed.

(** X12: in the derived frame the clave cell of a row is the base of its
    resolved key; nombreparte_normalizado is the normalised nombreparte
    when the sheet has that column and is left as it was otherwise;
    url_norma_pdf is kept when the sheet has it and is None otherwise. *)
Theorem derivar_columnas_celdas (df df' : DataFrame) (i : nat) (r : row) :
  derivar_columnas df = Ok df' → rows df !! i = Some r →
  ∃ clave r',
    generar_clave r = Ok clave ∧ rows df' !! i = Some r'
    ∧ r' !! "clave" = Some (separar_clave_y_articulo (VStr clave)).1
    ∧ r' !! "nombreparte_normalizado"
      = (if bool_decide ("nombreparte" ∈ columns df)
         then Some (VStr (normalizar_nombreparte (row_get r "nombreparte" VNaN)))
         else r !! "nombreparte_normalizado")
    ∧ r' !! "url_norma_pdf"
      = (if bool_decide ("url_norma_pdf" ∈ columns df) then r !! "url_norma_pdf"
         else Some VNone).
Proof.
  intros Hd Hr. destruct (derivar_columnas_fila df df' i r Hd Hr) as (clave & Hk & Hi).
  exists clave. eexists. split; [done|]. split; [exact Hi|]. cbv zeta.
  destruct (bool_decide ("nombreparte" ∈ columns df));
    destruct (bool_decide ("url_norma_pdf" ∈ columns df));
    repeat split;
    repeat first [ rewrite lookup_insert_eq; reflexivity
                 | rewrite lookup_insert_ne by done
                 | reflexivity ].
Qed.

Lemma derivar_columnas_celdas_witness :
  ∃ df' r',
    derivar_columnas hoja_sin_numero = Ok df'
    ∧ rows df' !! 1 = Some r'
    ∧ r' !! "clave" = Some (VStr (u "CTRIB"))
    ∧ r' !! "nombreparte_normalizado" = Some (VStr (u "inciso primero"))
    ∧ r' !! "url_norma_pdf" = Some VNone.
Proof.
  destruct (derivar_columnas hoja_sin_numero) as [df'|e] eqn:Hd; [|by vm_compute in Hd].
  destruct (derivar_columnas_celdas hoja_sin_numero df' 1
              (fila [("clave_manual", VStr (u "CTRIB.Art31"));
                     ("nombreparte", VStr (u "Inciso primero"))])
              Hd eq_refl) as (clave & r' & Hk & Hr & Hc & Hn & Hu).
  vm_compute in Hk. injection Hk as <-.
  exists df', r'. split; [done|]. split; [done|].
  rewrite Hc, Hn, Hu. repeat split; vm_compute; reflexivity.
Defined.

(** X15: a row without a usable manual key stores its resolved key
    unchanged, and the key supplies no article number: numero_articulo is
    the sheet's cell when it has one that is not missing, None otherwise. *)
Theorem sin_clave_manual_sin_articulo (df df' : DataFrame) (i : nat) (r : row) :
  derivar_columnas df = Ok df' → rows df !! i = Some r →
  paso_clave_manual r = None →
  ∃ clave r',
    generar_clave r = Ok clave ∧ rows df' !! i = Some r'
    ∧ r' !! "clave" = Some (VStr clave)
    ∧ r' !! "numero_articulo"
      = Some (if bool_decide ("numero_articulo" ∈ columns df)
              then (if isna (row_get r "numero_articulo" VNaN) then VNone
                    else row_get r "numero_articulo" VNaN)
              else VNone).
Proof.
  intros Hd Hr Hm. destruct (derivar_columnas_fila df df' i r Hd Hr) as (clave & Hk & Hi).
  pose proof (generar_clave_sin_manual r clave Hm Hk) as Hf.
  apply forma_clave_derivada_chars in Hf as [_ Hf].
  apply separar_sin_punto in Hf.
  exists clave. eexists. split; [done|]. split; [exact Hi|]. cbv zeta. rewrite Hf. simpl fst. simpl snd.
  destruct (bool_decide ("nombreparte" ∈ columns df));
    destruct (bool_decide ("url_norma_pdf" ∈ columns df));
    split;
    repeat first [ rewrite lookup_insert_eq; reflexivity
                 | rewrite lookup_insert_ne by done
                 | reflexivity ].
Qed.

Lemma sin_clave_manual_sin_articulo_witness :
  ∃ df' r',
    derivar_columnas hoja_ley = Ok df'
    ∧ rows df' !! 0 = Some r'
    ∧ r' !! "clave" = Some (VStr (u "L19496"))
    ∧ r' !! "numero_articulo" = Some VNone.
Proof.
  destruct (derivar_columnas hoja_ley) as [df'|e] eqn:Hd; [|by vm_compute in Hd].
  destruct (sin_clave_manual_sin_articulo hoja_ley df' 0 fila_ley_19496 Hd eq_refl eq_refl)
    as (clave & r' & Hk & Hr & Hc & Hn).
  vm_compute in Hk. injection Hk as <-.
  exists df', r'. split; [done|]. split; [done|]. split; [done|].
  rewrite Hn. reflexivity.
Defined.
